(** * PINT timing model: parameters, parfile lines and the model container

    A shallow embedding of [pint/models/timing_model.py]: the [Parameter]
    class with its parfile (de)serialisation, and the [TimingModel]
    container with parameter registration, delay aggregation and parfile
    reading.  Python exceptions are modelled by an [outcome] type, mutable
    objects by explicit state passing, and the alias lists, which are
    shared Python list objects, by a store indexed by locations. *)

From Stdlib Require Import ZArith Ascii.
From stdpp Require Import base option list gmap strings pretty.

Open Scope Z_scope.

(** ** Python run-time: exceptions and the state/exception monad *)

Inductive exn : Type :=
  | ValueError (msg : string)
  | TypeError (msg : string)
  | IndexError
  | KeyError (key : string)
  | AttributeError (attr : string)
  | DuplicateParameter (param : string).

Inductive outcome (A : Type) : Type :=
  | Ret (a : A)
  | Raise (e : exn).
Arguments Ret {A} a.
Arguments Raise {A} e.

(** A method acting on a mutable object of type [S]: it returns or raises,
    and in both cases the object keeps the mutations done so far. *)
Definition M (S A : Type) : Type := S → outcome A * S.

Definition ret {S A} (a : A) : M S A := λ s, (Ret a, s).
Definition raise {S A} (e : exn) : M S A := λ s, (Raise e, s).
Definition bind {S A B} (c : M S A) (k : A → M S B) : M S B :=
  λ s, match c s with
       | (Ret a, s') => k a s'
       | (Raise e, s') => (Raise e, s')
       end.
Definition lift {S A} (o : outcome A) : M S A := λ s, (o, s).
Definition modify {S} (f : S → S) : M S unit := λ s, (Ret tt, f s).
Definition get {S} : M S S := λ s, (Ret s, s).
(** [try: c except: h] with a bare [except]. *)
Definition try_except {S A} (c : M S A) (h : M S A) : M S A :=
  λ s, match c s with
       | (Ret a, s') => (Ret a, s')
       | (Raise _, s') => h s'
       end.

Notation "'let*' x ':=' c 'in' k" := (bind c (λ x, k))
  (at level 10, x name, c at level 200, k at level 200).

(** ** Python byte strings *)

Definition is_space (c : ascii) : bool :=
  let n := N_of_ascii c in
  ((9 <=? n) && (n <=? 13) || (n =? 32))%N.

Definition upper_char (c : ascii) : ascii :=
  let n := N_of_ascii c in
  if ((97 <=? n) && (n <=? 122))%N then ascii_of_N (n - 32) else c.

(** [s.upper()] *)
Fixpoint upper (s : string) : string :=
  match s with
  | EmptyString => EmptyString
  | String c s' => String (upper_char c) (upper s')
  end.

Definition snoc_char (s : string) (c : ascii) : string :=
  s +:+ String c EmptyString.

(** [s.split()]: maximal runs of non-whitespace characters; [cur] is the
    run being read. *)
Fixpoint split_from (cur : string) (s : string) : list string :=
  match s with
  | EmptyString => match cur with EmptyString => [] | _ => [cur] end
  | String c s' =>
      if is_space c
      then match cur with
           | EmptyString => split_from EmptyString s'
           | _ => cur :: split_from EmptyString s'
           end
      else split_from (snoc_char cur c) s'
  end.
Definition split (s : string) : list string := split_from EmptyString s.

Fixpoint lstrip (s : string) : string :=
  match s with
  | EmptyString => EmptyString
  | String c s' => if is_space c then lstrip s' else s
  end.
Fixpoint rstrip (s : string) : string :=
  match s with
  | EmptyString => EmptyString
  | String c s' =>
      match rstrip s' with
      | EmptyString => if is_space c then EmptyString else String c EmptyString
      | r => String c r
      end
  end.
(** [string.strip(s)] *)
Definition strip (s : string) : string := rstrip (lstrip s).

(** [s.startswith(p)] *)
Definition startswith (p s : string) : bool := String.prefix p s.

Fixpoint spaces (n : nat) : string :=
  match n with
  | O => EmptyString
  | S n' => String " " (spaces n')
  end.
Definition ljust (w : nat) (s : string) : string :=
  s +:+ spaces (w - String.length s).
Definition rjust (w : nat) (s : string) : string :=
  spaces (w - String.length s) +:+ s.

(** A whitespace-free, non-empty string: one field of a parfile line. *)
Fixpoint no_space (s : string) : bool :=
  match s with
  | EmptyString => true
  | String c s' => negb (is_space c) && no_space s'
  end.
Definition is_token (s : string) : bool :=
  match s with
  | EmptyString => false
  | _ => no_space s
  end.

(** [int(s)] on a string: optional sign, then decimal digits. *)
Definition digit_of (c : ascii) : option Z :=
  let n := N_of_ascii c in
  if ((48 <=? n) && (n <=? 57))%N then Some (Z.of_N (n - 48)) else None.
Fixpoint digits_from (acc : Z) (s : string) : option Z :=
  match s with
  | EmptyString => Some acc
  | String c s' =>
      match digit_of c with
      | Some d => digits_from (10 * acc + d) s'
      | None => None
      end
  end.
Definition digits (s : string) : option Z :=
  match s with
  | EmptyString => None
  | _ => digits_from 0 s
  end.
Definition signed_digits (s : string) : option Z :=
  match s with
  | String "-" s' => Z.opp <$> digits s'
  | String "+" s' => digits s'
  | _ => digits s
  end.
Definition py_int (s : string) : outcome Z :=
  match signed_digits (strip s) with
  | Some z => Ret z
  | None =>
      Raise (ValueError ("invalid literal for int() with base 10: '" +:+ s +:+ "'"))
  end.

(** The [%] operator on a format string, for the conversions the module
    uses: [%s] and [%d] with an optional [-] flag and a minimum width. *)
Inductive fmt_arg : Type :=
  | FStr (s : string)
  | FInt (z : Z).

Inductive fmt_state : Type :=
  | Lit
  | Spec (left : bool) (width : nat).

Definition pad (left : bool) (width : nat) (s : string) : string :=
  if left then ljust width s else rjust width s.

Fixpoint format_from (st : fmt_state) (fmt : string) (args : list fmt_arg)
  : outcome string :=
  match fmt with
  | EmptyString =>
      match st, args with
      | Lit, [] => Ret EmptyString
      | Lit, _ :: _ =>
          Raise (TypeError "not all arguments converted during string formatting")
      | Spec _ _, _ => Raise (ValueError "incomplete format")
      end
  | String c fmt' =>
      match st with
      | Lit =>
          if Ascii.eqb c "%" then format_from (Spec false 0) fmt' args
          else match format_from Lit fmt' args with
               | Ret r => Ret (String c r)
               | Raise e => Raise e
               end
      | Spec l w =>
          if Ascii.eqb c "-" then format_from (Spec true w) fmt' args
          else match digit_of c with
          | Some d => format_from (Spec l (10 * w + Z.to_nat d)) fmt' args
          | None =>
              match args with
              | [] => Raise (TypeError "not enough arguments for format string")
              | a :: args' =>
                  let field :=
                    if Ascii.eqb c "s" then
                      match a with
                      | FStr s => Ret s
                      | FInt z => Ret (pretty z)
                      end
                    else if Ascii.eqb c "d" then
                      match a with
                      | FInt z => Ret (pretty z)
                      | FStr _ =>
                          Raise (TypeError "%d format: a number is required, not str")
                      end
                    else Raise (ValueError "unsupported format character") in
                  match field with
                  | Ret f =>
                      match format_from Lit fmt' args' with
                      | Ret r => Ret (pad l w f +:+ r)
                      | Raise e => Raise e
                      end
                  | Raise e => Raise e
                  end
              end
          end
      end
  end.
Definition py_format (fmt : string) (args : list fmt_arg) : outcome string :=
  format_from Lit fmt args.

(** Pure computations that may raise. *)
Definition obind {A B} (o : outcome A) (k : A → outcome B) : outcome B :=
  match o with
  | Ret a => k a
  | Raise e => Raise e
  end.
Notation "'let?' x ':=' c 'in' k" := (obind c (λ x, k))
  (at level 10, x name, c at level 200, k at level 200).

Definition nl : string := String "010"%char EmptyString.

(** ** Values *)

(** Python floats are kept abstract, with the two functions the module
    applies to them.  The module uses [fortran_float] and neither defines
    nor imports it: it is a parameter of the development. *)
Class Numeric : Type := {
  float : Type;
  float_str : float → string;
  fortran_float : string → outcome float;
}.

(** The delay algebra: the type of TOAs handed to the component functions,
    the type of delays with the value of the literal [0.0] and Python's
    [+] on it, and the type of phases. *)
Class DelayAlgebra : Type := {
  TOA : Type;
  delay_t : Type;
  zero : delay_t;
  add : delay_t → delay_t → delay_t;
  phase_t : Type;
}.

Inductive pyval `{Numeric} : Type :=
  | PyNone
  | PyBool (b : bool)
  | PyInt (z : Z)
  | PyFloat (x : float)
  | PyStr (s : string).

Abbreviation loc := positive.
Abbreviation heap := (gmap positive (list string)).

Section parameter.
Context `{Numeric}.

Definition is_none (v : pyval) : bool :=
  match v with
  | PyNone => true
  | _ => false
  end.

(** The builtin [str], as a printer and as a parser. *)
Definition py_str (v : pyval) : string :=
  match v with
  | PyNone => "None"
  | PyBool true => "True"
  | PyBool false => "False"
  | PyInt z => pretty z
  | PyFloat x => float_str x
  | PyStr s => s
  end.
Definition str_parser (s : string) : outcome pyval := Ret (PyStr s).
Definition fortran_float_parser (s : string) : outcome pyval :=
  let? x := fortran_float s in Ret (PyFloat x).

(** ** The store of alias lists *)

(** [aliases] holds a reference to a Python list; [add_alias] appends to
    that list in place, so the lists live in a store ([heap], indexed by
    [loc]). *)

(** The list object created once for the default [aliases=[]] of
    [Parameter.__init__]. *)
Definition Parameter_default_aliases : loc := 1%positive.
Definition initial_heap : heap := {[ Parameter_default_aliases := [] ]}.

(** Evaluating a list display allocates a new list object. *)
Definition alloc (l : list string) (h : heap) : loc * heap :=
  let ℓ := fresh (dom h) in (ℓ, <[ℓ := l]> h).

(** ** Parameter *)

(** The class [Parameter]; the record is called [Param]. *)

Record Param : Type := mkParam {
  value : pyval;
  name : string;
  units : option string;
  description : option string;
  uncertainty : pyval;
  frozen : bool;
  continuous : bool;
  aliases : loc;
  parse_value : string → outcome pyval;
  print_value : pyval → string;
}.

(** [Parameter.__init__]; [None] for [aliases], [parse_value] or
    [print_value] stands for an omitted keyword argument. *)
Definition Parameter_init (name : string) (value : pyval)
    (units description : option string) (uncertainty : pyval)
    (frozen : bool) (aliases : option loc) (continuous : bool)
    (parse_value : option (string → outcome pyval))
    (print_value : option (pyval → string)) : Param :=
  {| value := value;
     name := name;
     units := units;
     description := description;
     uncertainty := uncertainty;
     frozen := frozen;
     continuous := continuous;
     aliases := default Parameter_default_aliases aliases;
     parse_value := default fortran_float_parser parse_value;
     print_value := default py_str print_value |}.

Definition with_value (v : pyval) (p : Param) : Param :=
  mkParam v (name p) (units p) (description p) (uncertainty p) (frozen p)
    (continuous p) (aliases p) (parse_value p) (print_value p).
Definition with_uncertainty (u : pyval) (p : Param) : Param :=
  mkParam (value p) (name p) (units p) (description p) u (frozen p)
    (continuous p) (aliases p) (parse_value p) (print_value p).
Definition with_frozen (b : bool) (p : Param) : Param :=
  mkParam (value p) (name p) (units p) (description p) (uncertainty p) b
    (continuous p) (aliases p) (parse_value p) (print_value p).

Definition aliases_of (h : heap) (p : Param) : list string :=
  h !!! aliases p.

(** [Parameter.set] *)
Definition set (s : string) : M Param unit :=
  let* self := get in
  let* v := lift (parse_value self s) in
  modify (with_value v).

(** [Parameter.add_alias]: the mutated object is the list, not [self]. *)
Definition add_alias (self : Param) (alias : string) (h : heap) : heap :=
  <[aliases self := aliases_of h self ++ [alias]]> h.

(** [Parameter.as_parfile_line] *)
Definition as_parfile_line (self : Param) : outcome string :=
  if is_none (value self) then Ret ""
  else
    let? line := py_format "%-15s %25s"
                   [FStr (name self); FStr (print_value self (value self))] in
    let? line :=
      (if negb (is_none (uncertainty self)) then
         let? s := py_format " %d %s"
                     [FInt (if frozen self then 0 else 1);
                      FStr (py_str (uncertainty self))] in
         Ret (line +:+ s)
       else if negb (frozen self) then Ret (line +:+ " 1")
       else Ret line) in
    Ret (line +:+ nl).

(** [k[i]] *)
Definition index {S} (k : list string) (i : nat) : M S string :=
  match k !! i with
  | Some x => ret x
  | None => raise IndexError
  end.

Definition when {S} (b : bool) (c : M S unit) : M S unit :=
  if b then c else ret tt.

(** [Parameter.from_parfile_line] *)
Definition from_parfile_line (h : heap) (line : string) : M Param bool :=
  let k := split line in
  let* first := try_except
                  (let* k0 := index k 0 in ret (Some (upper k0)))
                  (ret None) in
  match first with
  | None => ret false
  | Some name' =>
      let* self := get in
      if negb (bool_decide (name' = name self))
         && negb (bool_decide (name' ∈ aliases_of h self))
      then ret false
      else if (length k <? 2)%nat then ret false
      else
        let* _ := when (2 <=? length k)%nat
                    (let* k1 := index k 1 in set k1) in
        let* _ := when (3 <=? length k)%nat
                    (let* k2 := index k 2 in
                     let* flag := lift (py_int k2) in
                     when (0 <? flag) (modify (with_frozen false))) in
        let* _ := when (length k =? 4)%nat
                    (let* k3 := index k 3 in
                     let* u := lift (fortran_float k3) in
                     modify (with_uncertainty (PyFloat u))) in
        ret true
  end.

(** The same in terms of the fields of the line: the name test, then the
    value, the fit flag and the uncertainty. *)
Definition name_matches (h : heap) (p : Param) (k0 : string) : bool :=
  bool_decide (upper k0 = name p) || bool_decide (upper k0 ∈ aliases_of h p).
Definition after_flag (flag : Z) (p : Param) : Param :=
  if 0 <? flag then with_frozen false p else p.
Definition read_fields (h : heap) (k : list string) (p : Param)
  : outcome bool * Param :=
  match k with
  | k0 :: k1 :: rest =>
      if name_matches h p k0 then
        match parse_value p k1 with
        | Raise e => (Raise e, p)
        | Ret v =>
            match rest with
            | [] => (Ret true, with_value v p)
            | k2 :: rest' =>
                match py_int k2 with
                | Raise e => (Raise e, with_value v p)
                | Ret flag =>
                    let p' := after_flag flag (with_value v p) in
                    match rest' with
                    | [k3] =>
                        match fortran_float k3 with
                        | Raise e => (Raise e, p')
                        | Ret u => (Ret true, with_uncertainty (PyFloat u) p')
                        end
                    | _ => (Ret true, p')
                    end
                end
            end
        end
      else (Ret false, p)
  | _ => (Ret false, p)
  end.

Definition is_ret {A} (o : outcome A) : bool :=
  match o with
  | Ret _ => true
  | Raise _ => false
  end.

(** The line is claimed: it has at least two fields and the first, in
    upper case, is the name or an alias. *)
Definition claims (h : heap) (p : Param) (line : string) : bool :=
  match split line with
  | k0 :: _ :: _ => name_matches h p k0
  | _ => false
  end.

(** The parsers accept the fields they are applied to: the parameter's
    parser the second, [int] the third if there is one, [fortran_float] the
    fourth if the line has exactly four. *)
Definition accepts (p : Param) (line : string) : bool :=
  match split line with
  | _ :: k1 :: rest =>
      is_ret (parse_value p k1)
      && match rest with
         | [] => true
         | k2 :: rest' =>
             is_ret (py_int k2)
             && match rest' with
                | [k3] => is_ret (fortran_float k3)
                | _ => true
                end
         end
  | _ => true
  end.

(** A new parameter with the name, parser and printer of [p]: value and
    uncertainty unset, frozen. *)
Definition fresh_like (p : Param) (aliases : option loc) : Param :=
  Parameter_init (name p) PyNone (units p) (description p) PyNone true
    aliases (continuous p) (Some (parse_value p)) (Some (print_value p)).
End parameter.

(** ** TimingModel *)

(** Loops: [for x in xs: body], and the same with a local variable that the
    body updates. *)
Fixpoint for_each {S A} (xs : list A) (body : A → M S unit) : M S unit :=
  match xs with
  | [] => ret tt
  | x :: xs' => let* _ := body x in for_each xs' body
  end.
Fixpoint for_fold {S A B} (xs : list A) (b : B) (body : A → B → M S B) : M S B :=
  match xs with
  | [] => ret b
  | x :: xs' => let* b' := body x b in for_fold xs' b' body
  end.

(** What [read_parfile] does besides mutating the model. *)
Inductive event : Type :=
  | Warn (msg : string)
  | SetupCall.

Section timing_model.
Context `{Numeric} `{DelayAlgebra}.

(** The instance attributes: the six that [__init__] assigns, and in
    [attrs] those that [add_param] installs with [setattr]. *)
Record TimingModel : Type := mkTimingModel {
  params : list string;
  delay_funcs : list (TOA → delay_t);
  phase_funcs : list (TOA → delay_t → phase_t);
  delay_derivs : gmap string (list (TOA → delay_t));
  phase_derivs : gmap string (list (TOA → phase_t));
  d_phase_funcs : list (TOA → phase_t);
  attrs : gmap string Param;
}.

Definition init_attrs : list string :=
  ["params"; "delay_funcs"; "phase_funcs"; "delay_derivs"; "phase_derivs";
   "d_phase_funcs"].

(** The attributes every instance finds in its class: the methods of
    [TimingModel] and what [object] provides. *)
Definition class_attrs : list string :=
  ["__init__"; "setup"; "add_param"; "param_help"; "phase"; "delay";
   "d_phase_d_tpulsar"; "d_phase_d_toa"; "d_phase_d_param"; "d_delay_d_param";
   "__str__"; "as_parfile"; "read_parfile";
   "__class__"; "__delattr__"; "__dict__"; "__doc__"; "__format__";
   "__getattribute__"; "__hash__"; "__module__"; "__new__"; "__reduce__";
   "__reduce_ex__"; "__repr__"; "__setattr__"; "__sizeof__";
   "__subclasshook__"; "__weakref__"].

(** [hasattr(self, n)] *)
Definition hasattr (self : TimingModel) (n : string) : bool :=
  bool_decide (n ∈ init_attrs) || bool_decide (n ∈ class_attrs)
  || bool_decide (is_Some (attrs self !! n)).

(** [setattr(self, n, p)] for a name that is not one of [init_attrs]. *)
Definition setattr (n : string) (p : Param) (m : TimingModel) : TimingModel :=
  mkTimingModel (params m) (delay_funcs m) (phase_funcs m) (delay_derivs m)
    (phase_derivs m) (d_phase_funcs m) (<[n := p]> (attrs m)).
Definition append_param (n : string) (m : TimingModel) : TimingModel :=
  mkTimingModel (params m ++ [n]) (delay_funcs m) (phase_funcs m)
    (delay_derivs m) (phase_derivs m) (d_phase_funcs m) (attrs m).
Definition init_delay_derivs (n : string) (m : TimingModel) : TimingModel :=
  mkTimingModel (params m) (delay_funcs m) (phase_funcs m)
    (<[n := []]> (delay_derivs m)) (phase_derivs m) (d_phase_funcs m) (attrs m).
Definition init_phase_derivs (n : string) (m : TimingModel) : TimingModel :=
  mkTimingModel (params m) (delay_funcs m) (phase_funcs m)
    (delay_derivs m) (<[n := []]> (phase_derivs m)) (d_phase_funcs m) (attrs m).

(** [TimingModel.add_param] *)
Definition add_param (param : Param) : M TimingModel unit :=
  let* self := get in
  if hasattr self (name param) then raise (DuplicateParameter (name param))
  else
    let* _ := modify (setattr (name param) param) in
    let* _ := modify (append_param (name param)) in
    when (continuous param)
      (let* _ := modify (init_delay_derivs (name param)) in
       modify (init_phase_derivs (name param))).

(** [TimingModel.__init__]: the attribute assignments, then the
    registration of [PSR], whose alias list is a new list object. *)
Definition blank_model : TimingModel :=
  mkTimingModel [] [] [] ∅ ∅ [] ∅.
Definition PSR (aliases : loc) : Param :=
  Parameter_init "PSR" PyNone None (Some "Source name") PyNone true
    (Some aliases) true (Some str_parser) None.
Definition TimingModel_init (h : heap) : outcome unit * TimingModel * heap :=
  let '(ℓ, h') := alloc ["PSRJ"; "PSRB"] h in
  (add_param (PSR ℓ) blank_model, h').

(** [TimingModel.setup] of the base class; subclasses override it. *)
Definition setup : M TimingModel unit := ret tt.

(** The accumulation [acc = 0.0; for f in fs: acc += f(toa)]. *)
Fixpoint accumulate (fs : list (TOA → delay_t)) (toa : TOA) (acc : delay_t)
  : delay_t :=
  match fs with
  | [] => acc
  | f :: fs' => accumulate fs' toa (add acc (f toa))
  end.

(** [TimingModel.delay] *)
Definition delay (self : TimingModel) (toa : TOA) : delay_t :=
  accumulate (delay_funcs self) toa zero.

(** [TimingModel.d_delay_d_param]; indexing a dict with a missing key
    raises [KeyError]. *)
Definition d_delay_d_param (self : TimingModel) (toa : TOA) (param : string)
  : outcome delay_t :=
  match delay_derivs self !! param with
  | None => Raise (KeyError param)
  | Some fs => Ret (accumulate fs toa zero)
  end.

(** [getattr(self, par).method(...)] for a method of [Parameter] that
    mutates the parameter in place. *)
Definition on_attr {A} (par : string) (c : M Param A) : M TimingModel A :=
  λ self,
    match attrs self !! par with
    | None => (Raise (AttributeError par), self)
    | Some p => let '(r, p') := c p in (r, setattr par p' self)
    end.

(** [TimingModel.as_parfile] *)
Fixpoint as_parfile_from (self : TimingModel) (pars : list string)
    (result : string) : outcome string :=
  match pars with
  | [] => Ret result
  | par :: pars' =>
      match attrs self !! par with
      | None => Raise (AttributeError par)
      | Some p =>
          let? l := as_parfile_line p in
          as_parfile_from self pars' (result +:+ l)
      end
  end.
Definition as_parfile (self : TimingModel) : outcome string :=
  as_parfile_from self (params self) "".

Definition on_model {A} (c : M TimingModel A) : M (TimingModel * list event) A :=
  λ '(m, log), let '(r, m') := c m in (r, (m', log)).
Definition emit (e : event) : M (TimingModel * list event) unit :=
  modify (λ '(m, log), (m, log ++ [e])).

(** The body of the inner loop of [read_parfile]. *)
Definition offer (h : heap) (l : string) (par : string) (parsed : bool)
  : M TimingModel bool :=
  let* claimed := on_attr par (from_parfile_line h l) in
  if claimed then ret true else ret parsed.

(** [TimingModel.read_parfile], on the lines [pfile.readlines()] returns;
    [setup] is the method [self.setup] resolves to. *)
Definition read_line (h : heap) (l : string) : M (TimingModel * list event) unit :=
  if bool_decide (l = "") then ret tt
  else if startswith "#" l then ret tt
  else
    let* self := on_model get in
    let* parsed := on_model (for_fold (params self) false (offer h l)) in
    when (negb parsed)
      (let* msg := lift (py_format "Unrecognized parfile line '%s'" [FStr l]) in
       emit (Warn msg)).
Definition read_parfile (h : heap) (setup : M TimingModel unit)
    (lines : list string) : M (TimingModel * list event) unit :=
  let* _ := for_each (strip <$> lines) (read_line h) in
  let* _ := emit SetupCall in
  on_model setup.

(** ** Reachable models and what [read_parfile] is expected to do *)

(** The models a program can build: constructed, then changed by
    [add_param] and by the parameters reading lines. *)
Inductive reachable : TimingModel → Prop :=
  | reachable_init h : reachable (snd (fst (TimingModel_init h)))
  | reachable_add_param m p : reachable m → reachable (snd (add_param p m))
  | reachable_read m h line par :
      reachable m →
      reachable (snd (on_attr par (from_parfile_line h line) m)).

(** The registered names are distinct and each is an attribute holding its
    parameter; no parameter hides an attribute of the class or of
    [__init__]. *)
Definition wf_model (m : TimingModel) : Prop :=
  NoDup (params m)
  ∧ (∀ par, par ∈ params m → is_Some (attrs m !! par))
  ∧ (∀ n, n ∈ init_attrs ++ class_attrs → attrs m !! n = None ∧ n ∉ params m).

(** The lines [read_parfile] does not skip. *)
Definition skipped (l : string) : bool :=
  bool_decide (l = "") || startswith "#" l.
Definition relevant (lines : list string) : list string :=
  filter (λ l, skipped l = false) (strip <$> lines).

(** No registered parameter claims the line. *)
Definition claimed_by (h : heap) (m : TimingModel) (l : string) (par : string)
  : bool :=
  match attrs m !! par with
  | Some p => claims h p l
  | None => false
  end.
Definition unclaimed (h : heap) (m : TimingModel) (l : string) : bool :=
  negb (existsb (claimed_by h m l) (params m)).

(** On the lines [ls] no parser raises: whenever a registered parameter
    claims one of them, the parsers accept its fields. *)
Definition all_accepted (h : heap) (m : TimingModel) (ls : list string) : Prop :=
  ∀ l par p, l ∈ ls → par ∈ params m → attrs m !! par = Some p →
    claims h p l = true → accepts p l = true.

Definition warning (l : string) : string :=
  "Unrecognized parfile line '" +:+ l +:+ "'".

(** A parameter after it was offered the lines [ls] in turn. *)
Definition offer_lines (h : heap) (ls : list string) (p : Param) : Param :=
  foldl (λ p l, snd (from_parfile_line h l p)) p ls.

Definition set_attrs (a : gmap string Param) (m : TimingModel) : TimingModel :=
  mkTimingModel (params m) (delay_funcs m) (phase_funcs m) (delay_derivs m)
    (phase_derivs m) (d_phase_funcs m) a.

(** The model after every registered parameter was offered the lines. *)
Definition after_lines (h : heap) (ls : list string) (m : TimingModel)
  : TimingModel :=
  set_attrs
    (map_imap (λ par p, Some (if bool_decide (par ∈ params m)
                              then offer_lines h ls p else p)) (attrs m))
    m.
End timing_model.

(** ** An instance for running the model *)

(** Modelled from the spec: [fortran_float] is defined outside
    [timing_model.py].  The parfile format says numeric values use a
    scientific notation that tolerates [D] or [d] as exponent marker besides
    [E] and [e], as in [1.23D-4].  Floats are stood for by exact decimals
    [mant * 10 ^ expo], printed as mantissa, [e], exponent. *)
Record decimal : Type := mkDecimal { mant : Z; expo : Z }.

Fixpoint break_at (p : ascii → bool) (s : string) : string * option string :=
  match s with
  | EmptyString => (EmptyString, None)
  | String c s' =>
      if p c then (EmptyString, Some s')
      else let '(a, b) := break_at p s' in (String c a, b)
  end.

Definition is_exponent_marker (c : ascii) : bool :=
  bool_decide (c ∈ ["e"; "E"; "d"; "D"]%char).

Definition decimal_of_string (s : string) : option decimal :=
  let '(m, e) := break_at is_exponent_marker s in
  let '(sgn, m) := match m with
                   | String "-" m' => (-1, m')
                   | String "+" m' => (1, m')
                   | _ => (1, m)
                   end in
  let '(ip, fp) := break_at (Ascii.eqb ".") m in
  let fp := default EmptyString fp in
  n ← digits (ip +:+ fp);
  x ← match e with
      | None => Some 0
      | Some es => signed_digits es
      end;
  Some (mkDecimal (sgn * n) (x - Z.of_nat (String.length fp))).

Definition decimal_str (d : decimal) : string :=
  pretty (mant d) +:+ "e" +:+ pretty (expo d).

Definition decimal_fortran_float (s : string) : outcome decimal :=
  match decimal_of_string (strip s) with
  | Some d => Ret d
  | None => Raise (ValueError ("could not convert string to float: " +:+ s))
  end.

Definition decimal_numeric : Numeric :=
  {| float := decimal;
     float_str := decimal_str;
     fortran_float := decimal_fortran_float |}.

(** Delays and phases as integers, TOAs as integers. *)
Definition Z_delays : DelayAlgebra :=
  {| TOA := Z; delay_t := Z; zero := 0; add := Z.add; phase_t := Z |}.

(** ** Concrete parameters, models and parfiles *)

Section example_inputs.
#[local] Existing Instance decimal_numeric.
#[local] Existing Instance Z_delays.

(** A newly constructed model and the store it is built in. *)
Definition model0 : TimingModel := snd (fst (TimingModel_init initial_heap)).
Definition heap0 : heap := snd (TimingModel_init initial_heap).
Definition psr_aliases : loc := fst (alloc ["PSRJ"; "PSRB"] initial_heap).
Definition psr : Param := PSR psr_aliases.

(** [Parameter(name="F0", units="Hz", description="Spin frequency")] and the
    like, all without an [aliases] argument. *)
Definition F0 : Param :=
  Parameter_init "F0" PyNone (Some "Hz") (Some "Spin frequency") PyNone true
    None true None None.
Definition F1 : Param :=
  Parameter_init "F1" PyNone (Some "Hz/s") (Some "Spin down") PyNone true
    None true None None.
(** [F0] with value 100.0, uncertainty 0.0001, not frozen. *)
Definition F0_fitted : Param :=
  with_frozen false
    (with_uncertainty (PyFloat (mkDecimal 1 (-4)))
       (with_value (PyFloat (mkDecimal 1000 (-1))) F0)).
(** [PSR] with a value that contains a blank. *)
Definition psr_spaced : Param := with_value (PyStr "J1234 5") psr.
(** A parameter named like an alias of [PSR], one named like an attribute
    of the model, and one that is not continuous. *)
Definition PSRJ : Param :=
  Parameter_init "PSRJ" PyNone None None PyNone true None true
    (Some str_parser) None.
Definition params_param : Param :=
  Parameter_init "params" PyNone None None PyNone true None true None None.
Definition EPHEM : Param :=
  Parameter_init "EPHEM" PyNone None None PyNone true None false
    (Some str_parser) None.

Definition parfile_with_foreign_line : list string :=
  ["# a comment" +:+ nl; nl; "  PSR J1 " +:+ nl; "EPHEM DE421" +:+ nl;
   "PSRJ J1234+1234" +:+ nl].
Definition parfile_with_bad_flag : list string :=
  ["PSR J1234 x" +:+ nl; "EPHEM DE421" +:+ nl].
End example_inputs.

(** ** Further parts of the module *)

(** The phases: [Phase(0,0.0)] and the [+] of the class [Phase], which the
    module imports. *)
Class PhaseAlgebra `{DelayAlgebra} : Type := {
  phase_zero : phase_t;
  phase_add : phase_t → phase_t → phase_t;
}.

Section timing_model_more.
Context `{Numeric} `{DelayAlgebra} `{!PhaseAlgebra}.

(** The accumulation [phase = Phase(0,0.0); for pf in pfs: phase +=
    pf(toa,delay)]. *)
Fixpoint accumulate_phase (pfs : list (TOA → delay_t → phase_t)) (toa : TOA)
    (delay : delay_t) (acc : phase_t) : phase_t :=
  match pfs with
  | [] => acc
  | pf :: pfs' => accumulate_phase pfs' toa delay (phase_add acc (pf toa delay))
  end.

(** [TimingModel.phase] *)
Definition phase (self : TimingModel) (toa : TOA) : phase_t :=
  let delay := delay self toa in
  accumulate_phase (phase_funcs self) toa delay phase_zero.
End timing_model_more.

Section model_invariants.
Context `{Numeric} `{DelayAlgebra}.

(** The line a parameter contributes to a parfile. *)
Definition parfile_line (p : Param) : string :=
  match as_parfile_line p with
  | Ret l => l
  | Raise _ => ""
  end.
Definition parfile_lines (m : TimingModel) : list string :=
  (λ par, from_option parfile_line "" (attrs m !! par)) <$> params m.

(** The registry of a model: distinct names, exactly the bound ones, each
    bound to a parameter of that name, [PSR] first. *)
Definition registry_ok (m : TimingModel) : Prop :=
  NoDup (params m)
  ∧ (∀ par, par ∈ params m ↔ is_Some (attrs m !! par))
  ∧ (∀ par p, attrs m !! par = Some p → name p = par)
  ∧ head (params m) = Some "PSR".

(** The derivative mappings have an entry exactly for the registered
    continuous parameters. *)
Definition derivs_ok (m : TimingModel) : Prop :=
  ∀ n,
    (is_Some (delay_derivs m !! n)
       ↔ ∃ p, attrs m !! n = Some p ∧ continuous p = true)
    ∧ (is_Some (phase_derivs m !! n)
       ↔ ∃ p, attrs m !! n = Some p ∧ continuous p = true).

(** [p'] is [p] up to the value, the uncertainty and a cleared frozen
    flag. *)
Definition same_kind (p p' : Param) : Prop :=
  name p' = name p ∧ units p' = units p ∧ description p' = description p
  ∧ continuous p' = continuous p ∧ aliases p' = aliases p
  ∧ parse_value p' = parse_value p ∧ print_value p' = print_value p
  ∧ (frozen p' = true → frozen p = true).

(** [m'] is [m] up to that, parameter by parameter. *)
Definition same_shape (m m' : TimingModel) : Prop :=
  params m' = params m ∧ delay_funcs m' = delay_funcs m
  ∧ phase_funcs m' = phase_funcs m ∧ delay_derivs m' = delay_derivs m
  ∧ phase_derivs m' = phase_derivs m ∧ d_phase_funcs m' = d_phase_funcs m
  ∧ ∀ par, option_Forall2 same_kind (attrs m !! par) (attrs m' !! par).
End model_invariants.

(** ** A parfile written and read back *)

(** [pfile.readlines()] on a file that holds [s]: the lines, each with its
    newline, the last one possibly without. *)
Fixpoint readlines_from (cur : string) (s : string) : list string :=
  match s with
  | EmptyString => match cur with EmptyString => [] | _ => [cur] end
  | String c s' =>
      if Ascii.eqb c "010" then snoc_char cur c :: readlines_from EmptyString s'
      else readlines_from (snoc_char cur c) s'
  end.
Definition readlines (s : string) : list string := readlines_from EmptyString s.

Fixpoint no_newline (s : string) : bool :=
  match s with
  | EmptyString => true
  | String c s' => negb (Ascii.eqb c "010") && no_newline s'
  end.

Section parfile_round_trip_defs.
Context `{Numeric} `{DelayAlgebra}.

(** The model with every parameter replaced by a new one of the same name,
    alias list, parser and printer: values and uncertainties unset, all
    frozen. *)
Definition blank_values (m : TimingModel) : TimingModel :=
  set_attrs ((λ p, fresh_like p (Some (aliases p))) <$> attrs m) m.

(** A name that a parfile line can carry: one field, in upper case, that
    does not start a comment. *)
Definition parfile_name (n : string) : Prop :=
  is_token n = true ∧ upper n = n ∧ startswith "#" n = false.

(** The printed value and the printed uncertainty are one field each, and
    the parsers give back the value and the uncertainty from them. *)
Definition exact_line (p : Param) : Prop :=
  is_token (print_value p (value p)) = true
  ∧ parse_value p (print_value p (value p)) = Ret (value p)
  ∧ (is_none (uncertainty p) = false →
     is_token (py_str (uncertainty p)) = true
     ∧ fortran_float_parser (py_str (uncertainty p)) = Ret (uncertainty p)).

(** The value is set, and the name, the printed value and the printed
    uncertainty are one field each. *)
Definition line_ok (p : Param) : Prop :=
  is_none (value p) = false
  ∧ is_token (name p) = true
  ∧ is_token (print_value p (value p)) = true
  ∧ (is_none (uncertainty p) = false →
     is_token (py_str (uncertainty p)) = true).

(** The lines of the parfile of [m] that stem from the names [ps]. *)
Definition parfile_lines_of (m : TimingModel) (ps : list string) : list string :=
  filter (λ l, l ≠ "")
    ((λ par, from_option parfile_line "" (attrs m !! par)) <$> ps).
End parfile_round_trip_defs.

(** ** More concrete models *)

(** Phases as integers. *)
Definition Z_phases : @PhaseAlgebra Z_delays :=
  @Build_PhaseAlgebra Z_delays 0 Z.add.

Section example_inputs_more.
#[local] Existing Instance decimal_numeric.
#[local] Existing Instance Z_delays.

(** [PSR] after it read the line [PSR J1234+1234]. *)
Definition psr_set : Param := with_value (PyStr "J1234+1234") psr.
(** A model with [PSR] set, [F0] fitted and [F1] left unset. *)
Definition model_fitted : TimingModel :=
  snd (add_param F1
         (snd (add_param F0_fitted
                 (snd (on_attr "PSR"
                         (from_parfile_line heap0 "PSR J1234+1234") model0))))).
(** A new model with [F0] registered, and one with a parameter named like
    an alias of [PSR]. *)
Definition model_F0 : TimingModel := snd (add_param F0 model0).
(** A new model to which a delay function and a phase function were
    appended, as the components of a model do. *)
Definition model_with_delay : TimingModel :=
  mkTimingModel (params model0) [λ toa, toa + 1] [λ toa delay, toa - delay]
    (delay_derivs model0) (phase_derivs model0) (d_phase_funcs model0)
    (attrs model0).
End example_inputs_more.

(** * Properties *)

(** ** The run-time functions on concrete inputs *)

Example split_ex : split "  F0   100.0 1	0.0001
" = ["F0"; "100.0"; "1"; "0.0001"].
Proof. reflexivity. Qed.
Example strip_ex : strip "  # a b  " = "# a b".
Proof. reflexivity. Qed.
Example upper_ex : upper "psrj_1z{" = "PSRJ_1Z{".
Proof. reflexivity. Qed.
Example int_ex : py_int "-012" = Ret (-12) ∧ py_int "+3" = Ret 3 ∧ py_int "0" = Ret 0.
Proof. repeat split; reflexivity. Qed.
Example format_ex : py_format "%-5s|%4s %d" [FStr "ab"; FStr "c"; FInt 1] = Ret "ab   |   c 1".
Proof. reflexivity. Qed.
Example fortran_float_ex :
  decimal_fortran_float "1.23D-4" = Ret (mkDecimal 123 (-6))
  ∧ decimal_fortran_float "100.0" = Ret (mkDecimal 1000 (-1))
  ∧ decimal_fortran_float "-.5e+2" = Ret (mkDecimal (-5) 1)
  ∧ decimal_fortran_float (decimal_str (mkDecimal 1 (-4))) = Ret (mkDecimal 1 (-4)).
Proof. repeat split; reflexivity. Qed.

(** ** Strings: fields of a line *)

Lemma app_cons c s r : String c s +:+ r = String c (s +:+ r).
Proof. reflexivity. Qed.

Lemma app_empty_l s : EmptyString +:+ s = s.
Proof. reflexivity. Qed.

Lemma app_empty_r s : s +:+ EmptyString = s.
Proof. induction s as [|c s IH]; [done|]. by rewrite app_cons, IH. Qed.

Lemma app_assoc' s1 s2 s3 : (s1 +:+ s2) +:+ s3 = s1 +:+ (s2 +:+ s3).
Proof. induction s1 as [|c s1 IH]; [done|]. by rewrite !app_cons, IH. Qed.

Lemma snoc_char_app cur c t : snoc_char cur c +:+ t = cur +:+ String c t.
Proof. unfold snoc_char. by rewrite app_assoc'. Qed.

Lemma is_token_inv t :
  is_token t = true → t ≠ EmptyString ∧ no_space t = true.
Proof. by destruct t. Qed.

(** Reading a whitespace-free string extends the current run. *)
Lemma split_from_no_space t cur r :
  no_space t = true → split_from cur (t +:+ r) = split_from (cur +:+ t) r.
Proof.
  revert cur. induction t as [|c t IH]; intros cur Ht.
  - by rewrite app_empty_r.
  - simpl in Ht. apply andb_true_iff in Ht as [Hc Ht].
    rewrite app_cons. simpl. apply negb_true_iff in Hc. rewrite Hc.
    rewrite (IH _ Ht). by rewrite snoc_char_app.
Qed.

(** A whitespace character ends the current run. *)
Lemma split_from_sep cur c r :
  cur ≠ EmptyString → is_space c = true →
  split_from cur (String c r) = cur :: split r.
Proof. intros Hcur Hc. simpl. rewrite Hc. by destruct cur. Qed.

Lemma split_spaces n r : split (spaces n +:+ r) = split r.
Proof. induction n as [|n IH]; [done|]. simpl. by rewrite app_cons. Qed.

(** One field followed by a separator. *)
Lemma split_field n t c r :
  is_token t = true → is_space c = true →
  split (spaces n +:+ t +:+ String c r) = t :: split r.
Proof.
  intros [Hne Ht]%is_token_inv Hc. rewrite split_spaces. unfold split.
  rewrite split_from_no_space by done. by apply split_from_sep.
Qed.

Lemma split_ljust w t c r :
  is_token t = true → is_space c = true →
  split (ljust w t +:+ String c r) = t :: split r.
Proof.
  intros [Hne Ht]%is_token_inv Hc. unfold ljust, split.
  rewrite app_assoc', split_from_no_space by done. rewrite app_empty_l.
  destruct (w - String.length t)%nat as [|n].
  - by apply split_from_sep.
  - simpl spaces. rewrite app_cons.
    rewrite split_from_sep; [|done|reflexivity].
    f_equal. rewrite split_spaces. unfold split. simpl. by rewrite Hc.
Qed.

Lemma split_rjust w t c r :
  is_token t = true → is_space c = true →
  split (rjust w t +:+ String c r) = t :: split r.
Proof.
  intros Ht Hc. unfold rjust. rewrite app_assoc'. by apply split_field.
Qed.

(** ** The format strings of the module *)

Lemma format_name_value n v :
  py_format "%-15s %25s" [FStr n; FStr v]
  = Ret (ljust 15 n +:+ " " +:+ rjust 25 v).
Proof. unfold py_format. simpl. by rewrite app_empty_r. Qed.

Lemma format_flag_uncertainty z u :
  py_format " %d %s" [FInt z; FStr u] = Ret (" " +:+ pretty z +:+ " " +:+ u).
Proof.
  unfold py_format. simpl. unfold rjust. simpl. by rewrite app_empty_r.
Qed.

Lemma format_warning l :
  py_format "Unrecognized parfile line '%s'" [FStr l]
  = Ret ("Unrecognized parfile line '" +:+ l +:+ "'").
Proof. unfold py_format. simpl. reflexivity. Qed.

(** ** Parameter: parfile lines *)

Section parameter_facts.
Context `{Numeric}.
Implicit Types (p q : Param) (h : heap) (v u : pyval).

(** The line [as_parfile_line] returns, case by case. *)
Lemma as_parfile_line_eq p :
  as_parfile_line p =
    Ret (if is_none (value p) then ""
         else ljust 15 (name p) +:+ " " +:+ rjust 25 (print_value p (value p))
              +:+ (if negb (is_none (uncertainty p))
                   then " " +:+ (if frozen p then "0" else "1") +:+ " "
                        +:+ py_str (uncertainty p)
                   else if frozen p then "" else " 1")
              +:+ nl).
Proof.
  unfold as_parfile_line. destruct (is_none (value p)); [done|].
  rewrite format_name_value. cbn [obind].
  destruct (is_none (uncertainty p)); cbn [negb].
  - destruct (frozen p); cbn [negb obind]; by rewrite ?app_assoc', ?app_empty_l.
  - rewrite format_flag_uncertainty. cbn [obind].
    destruct (frozen p); by rewrite ?app_assoc'.
Qed.

(** C2: [as_parfile_line] never raises; it returns the empty string for an
    unset value, and otherwise the name left-justified on 15 columns, the
    printed value right-justified on 25, then the fit flag ([0] when frozen,
    [1] when not) and the printed uncertainty when the uncertainty is set,
    the flag [1] alone when it is unset and the parameter is not frozen, and
    nothing when it is unset and the parameter is frozen. *)
Theorem as_parfile_line_spec p :
  as_parfile_line p =
    Ret (if is_none (value p) then ""
         else ljust 15 (name p) +:+ " " +:+ rjust 25 (print_value p (value p))
              +:+ (if negb (is_none (uncertainty p))
                   then " " +:+ (if frozen p then "0" else "1") +:+ " "
                        +:+ py_str (uncertainty p)
                   else if frozen p then "" else " 1")
              +:+ nl).
Proof.
  unfold as_parfile_line. destruct (is_none (value p)); [done|].
  rewrite format_name_value. cbn [obind].
  destruct (is_none (uncertainty p)); cbn [negb].
  - destruct (frozen p); cbn [negb obind]; by rewrite ?app_assoc', ?app_empty_l.
  - rewrite format_flag_uncertainty. cbn [obind].
    destruct (frozen p); by rewrite ?app_assoc'.
Qed.

(** [from_parfile_line] reads the fields of the line as [read_fields] says. *)
Lemma from_parfile_line_fields h line p :
  from_parfile_line h line p = read_fields h (split line) p.
Proof.
  unfold from_parfile_line, read_fields, name_matches, after_flag.
  unfold set, when, bind, try_except, index, get, ret, lift, modify, raise.
  destruct (split line) as [|k0 [|k1 rest]]; simpl.
  - reflexivity.
  - by destruct (negb _ && negb _).
  - rewrite <- negb_orb.
    destruct (bool_decide _ || bool_decide _); simpl; [|done].
    destruct (parse_value p k1) as [v|e]; [|done].
    destruct rest as [|k2 rest]; simpl; [done|].
    destruct (py_int k2) as [flag|e]; [|done].
    destruct (0 <? flag); destruct rest as [|k3 [|k4 rest]]; simpl; try done;
      by destruct (fortran_float k3).
Qed.

Lemma split_token t c r :
  is_token t = true → is_space c = true →
  split (t +:+ String c r) = t :: split r.
Proof. apply (split_field 0). Qed.

(** The fields of the line [as_parfile_line] writes. *)
Lemma split_parfile_line p line :
  is_none (value p) = false →
  is_token (name p) = true →
  is_token (print_value p (value p)) = true →
  (is_none (uncertainty p) = false → is_token (py_str (uncertainty p)) = true) →
  as_parfile_line p = Ret line →
  split line =
    name p :: print_value p (value p) ::
      (if negb (is_none (uncertainty p))
       then [if frozen p then "0" else "1"; py_str (uncertainty p)]
       else if frozen p then [] else ["1"]).
Proof.
  intros Hv Hn Hpv Hu. rewrite as_parfile_line_eq, Hv. intros [= <-].
  change (" " +:+ ?x) with (String " " x).
  rewrite split_ljust by done.
  destruct (is_none (uncertainty p)); cbn [negb].
  - destruct (frozen p).
    + rewrite app_empty_l. unfold nl. by rewrite split_rjust.
    + change (" 1" +:+ nl) with (String " " ("1" +:+ nl)).
      by rewrite split_rjust.
  - rewrite !app_assoc'. rewrite !(app_cons " " "").
    rewrite !app_empty_l, split_rjust by done. rewrite split_token; [|by destruct (frozen p)|done].
    unfold nl. rewrite split_token; [done|by apply Hu|done].
Qed.

(** C1, as the code has it: a parameter with a set value, whose name is one
    upper-case field and whose printed value and printed uncertainty are one
    field each, is read back from its own line into a new parameter of the
    same name with the value the parser gives for the printed value, the
    uncertainty [fortran_float] gives for the printed uncertainty (none
    when there was none) and the frozen flag of the original. *)
Theorem parfile_line_round_trip h p al v' u' :
  is_none (value p) = false →
  is_token (name p) = true →
  upper (name p) = name p →
  is_token (print_value p (value p)) = true →
  parse_value p (print_value p (value p)) = Ret v' →
  (if is_none (uncertainty p) then u' = PyNone
   else is_token (py_str (uncertainty p)) = true
        ∧ fortran_float_parser (py_str (uncertainty p)) = Ret u') →
  ∃ line q,
    as_parfile_line p = Ret line
    ∧ from_parfile_line h line (fresh_like p al) = (Ret true, q)
    ∧ value q = v' ∧ uncertainty q = u' ∧ frozen q = frozen p.
Proof.
  intros Hv Hn Hup Hpv Hparse Hu.
  destruct (as_parfile_line p) as [line|e] eqn:Hline;
    [|by rewrite as_parfile_line_eq in Hline].
  apply split_parfile_line in Hline as Hsplit; try done;
    [|by intros Hnone; rewrite Hnone in Hu; destruct Hu].
  exists line. rewrite from_parfile_line_fields, Hsplit.
  unfold read_fields, name_matches. rewrite Hup. cbn [fresh_like Parameter_init name].
  rewrite bool_decide_eq_true_2 by done.
  cbn [orb parse_value default fresh_like Parameter_init]. unfold id.
  rewrite Hparse.
  destruct (is_none (uncertainty p)); cbn [negb].
  - subst u'. destruct (frozen p); eexists; (split; [done|]); done.
  - destruct Hu as [_ Hu]. unfold fortran_float_parser in Hu.
    destruct (fortran_float (py_str (uncertainty p))) as [x|e] eqn:Hx; [|done].
    injection Hu as <-.
    destruct (frozen p); eexists; (split; [done|]); done.
Qed.

(** C3, as the code has it: on a claimed line whose fields the parsers
    accept, the call returns true; the value is the parse of the second
    field; a third field read as an integer greater than 0 clears [frozen]
    and otherwise leaves it as it was; the fourth field is parsed with
    [fortran_float] and stored as uncertainty when the line has exactly four
    fields, and with more than four the uncertainty is left as it was. *)
Theorem from_parfile_line_claimed h line p k0 k1 rest v flag (x : float) :
  split line = k0 :: k1 :: rest →
  name_matches h p k0 = true →
  parse_value p k1 = Ret v →
  (∀ k2, rest !! 0%nat = Some k2 → py_int k2 = Ret flag) →
  (∀ k3, length rest = 2%nat → rest !! 1%nat = Some k3 →
         fortran_float k3 = Ret x) →
  from_parfile_line h line p =
    (Ret true,
     with_uncertainty
       (if bool_decide (length rest = 2%nat) then PyFloat x else uncertainty p)
       (with_frozen
          (if bool_decide (rest ≠ [] ∧ 0 < flag) then false else frozen p)
          (with_value v p))).
Proof.
  intros Hsplit Hname Hparse Hflag Hunc.
  rewrite from_parfile_line_fields, Hsplit. unfold read_fields.
  rewrite Hname, Hparse.
  destruct rest as [|k2 rest'].
  - rewrite (bool_decide_eq_false_2 (length [] = 2%nat)) by done.
    rewrite bool_decide_eq_false_2; [done|]. by intros [Hne _].
  - rewrite (Hflag k2) by done. unfold after_flag.
    assert (bool_decide (k2 :: rest' ≠ [] ∧ 0 < flag) = (0 <? flag)) as ->.
    { destruct (Z.ltb_spec 0 flag).
      - by rewrite bool_decide_eq_true_2.
      - rewrite bool_decide_eq_false_2; [done|]. intros [_ ?]. lia. }
    destruct rest' as [|k3 [|k4 rest']].
    + by destruct (0 <? flag).
    + rewrite (Hunc k3) by done. by destruct (0 <? flag).
    + by destruct (0 <? flag).
Qed.

(** Case analysis on the fields of [line] and on what the parsers return. *)
Ltac by_fields h p line :=
  destruct (split line) as [|?k0 [|?k1 [|?k2 [|?k3 [|?k4 ?rest]]]]];
  cbn [fst snd is_ret andb];
  repeat match goal with
    | |- context [name_matches h p ?k] => destruct (name_matches h p k)
    | |- context [parse_value p ?k] => destruct (parse_value p k)
    | |- context [py_int ?k] => destruct (py_int k)
    | |- context [fortran_float ?k] => destruct (fortran_float k)
    end;
  cbn [fst snd is_ret andb].

Lemma from_parfile_line_true_iff h line p :
  fst (from_parfile_line h line p) = Ret true
  ↔ claims h p line = true ∧ accepts p line = true.
Proof.
  rewrite from_parfile_line_fields. unfold claims, accepts, read_fields.
  by_fields h p line; intuition congruence.
Qed.

Lemma from_parfile_line_false_iff h line p :
  fst (from_parfile_line h line p) = Ret false ↔ claims h p line = false.
Proof.
  rewrite from_parfile_line_fields. unfold claims, accepts, read_fields.
  by_fields h p line; intuition congruence.
Qed.

Lemma from_parfile_line_false_unchanged h line p :
  fst (from_parfile_line h line p) = Ret false →
  snd (from_parfile_line h line p) = p.
Proof.
  rewrite from_parfile_line_fields. unfold read_fields.
  by_fields h p line; intuition congruence.
Qed.


Lemma add_alias_same_list h p q a :
  aliases q = aliases p →
  aliases_of (add_alias p a h) q = aliases_of h p ++ [a].
Proof.
  intros Heq. unfold add_alias, aliases_of. rewrite Heq.
  apply lookup_total_insert_eq.
Qed.

(** What a claimed line whose fields the parsers accept does. *)
Lemma from_parfile_line_accepted h line p k0 k1 rest v flag (x : float) :
  split line = k0 :: k1 :: rest →
  name_matches h p k0 = true →
  parse_value p k1 = Ret v →
  (∀ k2, rest !! 0%nat = Some k2 → py_int k2 = Ret flag) →
  (∀ k3, length rest = 2%nat → rest !! 1%nat = Some k3 →
         fortran_float k3 = Ret x) →
  from_parfile_line h line p =
    (Ret true,
     with_uncertainty
       (if bool_decide (length rest = 2%nat) then PyFloat x else uncertainty p)
       (with_frozen
          (if bool_decide (rest ≠ [] ∧ 0 < flag) then false else frozen p)
          (with_value v p))).
Proof.
  intros Hsplit Hname Hparse Hflag Hunc.
  rewrite from_parfile_line_fields, Hsplit. unfold read_fields, after_flag.
  rewrite Hname, Hparse. destruct rest as [|k2 rest'].
  - rewrite (bool_decide_eq_false_2 (length [] = 2%nat)) by done.
    rewrite bool_decide_eq_false_2; [done|]. by intros [Hne _].
  - rewrite (Hflag k2) by done.
    assert (bool_decide (k2 :: rest' ≠ [] ∧ 0 < flag) = (0 <? flag)) as ->.
    { destruct (Z.ltb_spec 0 flag).
      - by rewrite bool_decide_eq_true_2.
      - rewrite bool_decide_eq_false_2; [done|]. intros [_ ?]. lia. }
    destruct rest' as [|k3 [|k4 rest']]; [|rewrite (Hunc k3) by done|];
      by destruct (0 <? flag).
Qed.

(** C9, as the code has it: two parameters constructed without an
    [aliases] argument hold the same list.  After [add_alias a] on one of
    them the alias [a] is in the list of both, and the other one, on which
    nothing was called, passes the name test on every line whose first field
    reads [a] once in upper case: with two fields or more the line is not
    rejected, the call returns true exactly when the parsers accept the
    fields, and it then sets the value, the frozen flag and the uncertainty
    from them as on a line that carries the parameter's own name. *)
Theorem default_aliases_shared h a line k0 k1 rest
    (n1 n2 : string) (v1 v2 u1 u2 : pyval) (un1 un2 d1 d2 : option string)
    (f1 f2 c1 c2 : bool) (pv1 pv2 : option (string → outcome pyval))
    (pr1 pr2 : option (pyval → string)) :
  let p := Parameter_init n1 v1 un1 d1 u1 f1 None c1 pv1 pr1 in
  let q := Parameter_init n2 v2 un2 d2 u2 f2 None c2 pv2 pr2 in
  let h' := add_alias p a h in
  split line = k0 :: k1 :: rest →
  upper k0 = a →
  a ∈ aliases_of h' p ∧ a ∈ aliases_of h' q
  ∧ name_matches h' q k0 = true
  ∧ fst (from_parfile_line h' line q) ≠ Ret false
  ∧ (fst (from_parfile_line h' line q) = Ret true ↔ accepts q line = true)
  ∧ (∀ v flag (x : float),
       parse_value q k1 = Ret v →
       (∀ k2, rest !! 0%nat = Some k2 → py_int k2 = Ret flag) →
       (∀ k3, length rest = 2%nat → rest !! 1%nat = Some k3 →
              fortran_float k3 = Ret x) →
       from_parfile_line h' line q =
         (Ret true,
          with_uncertainty
            (if bool_decide (length rest = 2%nat) then PyFloat x
             else uncertainty q)
            (with_frozen
               (if bool_decide (rest ≠ [] ∧ 0 < flag) then false
                else frozen q)
               (with_value v q)))).
Proof.
  intros p q h' Hsplit Hk0.
  assert (a ∈ aliases_of h' q) as Hq.
  { unfold h'. rewrite add_alias_same_list by done. set_solver. }
  assert (name_matches h' q k0 = true) as Hm.
  { unfold name_matches. rewrite Hk0.
    rewrite (bool_decide_eq_true_2 (a ∈ _)) by done. apply orb_true_r. }
  assert (claims h' q line = true) as Hclaims.
  { unfold claims. by rewrite Hsplit, Hm. }
  split_and!; [|done..| | |].
  - unfold h'. rewrite add_alias_same_list by done. set_solver.
  - rewrite from_parfile_line_false_iff. by rewrite Hclaims.
  - rewrite from_parfile_line_true_iff, Hclaims. tauto.
  - intros v flag x Hparse Hflag Hunc.
    by apply (from_parfile_line_accepted h' line q k0 k1 rest).
Qed.

(** Reading a line changes neither the name, nor the alias list, nor the
    parser of a parameter, and only these decide what it claims. *)
Lemma from_parfile_line_static h l p :
  name (snd (from_parfile_line h l p)) = name p
  ∧ aliases (snd (from_parfile_line h l p)) = aliases p
  ∧ parse_value (snd (from_parfile_line h l p)) = parse_value p.
Proof.
  rewrite from_parfile_line_fields. unfold read_fields, after_flag.
  by_fields h p l; repeat case_match; done.
Qed.

Lemma claims_static h h' p p' l :
  name p' = name p → aliases_of h' p' = aliases_of h p →
  claims h' p' l = claims h p l.
Proof.
  intros Hn Ha. unfold claims, name_matches. by rewrite Hn, Ha.
Qed.

Lemma accepts_static p p' l :
  parse_value p' = parse_value p → accepts p' l = accepts p l.
Proof. intros Hp. unfold accepts. by rewrite Hp. Qed.

Lemma from_parfile_line_ret h l p :
  (claims h p l = true → accepts p l = true) →
  fst (from_parfile_line h l p) = Ret (claims h p l).
Proof.
  intros Hacc. destruct (claims h p l) eqn:Hc.
  - apply from_parfile_line_true_iff. auto.
  - by apply from_parfile_line_false_iff.
Qed.
End parameter_facts.

(** ** TimingModel: registration *)

Section timing_model_facts.
Context `{Numeric} `{DelayAlgebra}.
Implicit Types (m : TimingModel) (p : Param) (h : heap).

Lemma add_param_duplicate m p :
  hasattr m (name p) = true →
  add_param p m = (Raise (DuplicateParameter (name p)), m).
Proof.
  intros Hhas. unfold add_param, bind, get, raise. simpl. by rewrite Hhas.
Qed.

Lemma add_param_registers m p :
  hasattr m (name p) = false →
  add_param p m =
    (Ret tt,
     mkTimingModel (params m ++ [name p]) (delay_funcs m) (phase_funcs m)
       (if continuous p then <[name p := []]> (delay_derivs m)
        else delay_derivs m)
       (if continuous p then <[name p := []]> (phase_derivs m)
        else phase_derivs m)
       (d_phase_funcs m) (<[name p := p]> (attrs m))).
Proof.
  intros Hhas. unfold add_param, bind, get, raise, modify, when, ret. simpl.
  rewrite Hhas. by destruct (continuous p).
Qed.

Lemma hasattr_false m n :
  hasattr m n = false
  ↔ (n ∉ init_attrs ++ class_attrs) ∧ attrs m !! n = None.
Proof.
  unfold hasattr. rewrite !orb_false_iff, !bool_decide_eq_false.
  rewrite elem_of_app, <- eq_None_not_Some. tauto.
Qed.

Lemma hasattr_registered m n :
  is_Some (attrs m !! n) → hasattr m n = true.
Proof.
  intros Hn. unfold hasattr. rewrite (bool_decide_eq_true_2 _ Hn).
  apply orb_true_r.
Qed.

Lemma hasattr_builtin m n :
  n ∈ init_attrs ++ class_attrs → hasattr m n = true.
Proof.
  intros [Hn|Hn]%elem_of_app; unfold hasattr;
    rewrite (bool_decide_eq_true_2 _ Hn); by rewrite ?orb_true_r.
Qed.

Lemma wf_blank : wf_model blank_model.
Proof.
  split_and!.
  - constructor.
  - by intros par ?%elem_of_nil.
  - intros n _. split; [done|]. by intros ?%elem_of_nil.
Qed.

Lemma wf_add_param m p : wf_model m → wf_model (snd (add_param p m)).
Proof.
  intros (Hnd & Hin & Hbuiltin).
  destruct (hasattr m (name p)) eqn:Hhas.
  { rewrite add_param_duplicate by done. done. }
  rewrite add_param_registers by done. cbn [snd].
  apply hasattr_false in Hhas as [Hnb Hnone].
  split_and!; cbn [params attrs].
  - apply NoDup_app. split_and!; [done| |apply NoDup_singleton].
    intros par Hpar ->%list_elem_of_singleton.
    apply Hin in Hpar as [? ?]. congruence.
  - intros par [Hpar| ->%list_elem_of_singleton]%elem_of_app.
    + destruct (decide (name p = par)) as [->|Hne].
      * rewrite lookup_insert_eq. eauto.
      * rewrite lookup_insert_ne by done. by apply Hin.
    + rewrite lookup_insert_eq. eauto.
  - intros n Hn. destruct (Hbuiltin n Hn) as [Hnone' Hnotin].
    split.
    + rewrite lookup_insert_ne; [done|].
      intros Heq. apply Hnb. by rewrite Heq.
    + intros [?| ->%list_elem_of_singleton]%elem_of_app; done.
Qed.

Lemma wf_on_attr {A} m par (c : M Param A) :
  wf_model m → wf_model (snd (on_attr par c m)).
Proof.
  intros (Hnd & Hin & Hbuiltin). unfold on_attr.
  destruct (attrs m !! par) as [p|] eqn:Hpar; [|done].
  destruct (c p) as [r p']. cbn [snd]. split_and!; cbn [params attrs setattr].
  - done.
  - intros par' Hpar'. destruct (decide (par = par')) as [->|Hne].
    + rewrite lookup_insert_eq. eauto.
    + rewrite lookup_insert_ne by done. by apply Hin.
  - intros n Hn. destruct (Hbuiltin n Hn) as [Hnone Hnotin].
    split; [|done]. rewrite lookup_insert_ne; [done|]. congruence.
Qed.

Lemma reachable_wf m : reachable m → wf_model m.
Proof.
  induction 1 as [h|m p _ IH|m h line par _ IH].
  - unfold TimingModel_init. destruct (alloc _ h) as [ℓ h']. cbn [fst snd].
    apply wf_add_param, wf_blank.
  - by apply wf_add_param.
  - by apply wf_on_attr.
Qed.

(** C5, as the code has it: [add_param] with a name that is bound to a
    registered parameter raises [DuplicateParameter] carrying that name and
    leaves the model as it was, and so it does with a name of the parameter
    sequence when the registered names are bound, whatever component
    functions and providers the model holds; with a name the model has no
    attribute for (the aliases of registered parameters are not looked at)
    it installs the parameter under its name, appends the name to [params]
    and, only for a continuous parameter, creates empty lists in
    [delay_derivs] and [phase_derivs]. *)
Theorem add_param_spec m p :
  (is_Some (attrs m !! name p) →
     add_param p m = (Raise (DuplicateParameter (name p)), m))
  ∧ (wf_model m → name p ∈ params m →
     add_param p m = (Raise (DuplicateParameter (name p)), m))
  ∧ (hasattr m (name p) = false →
     add_param p m =
       (Ret tt,
        mkTimingModel (params m ++ [name p]) (delay_funcs m) (phase_funcs m)
          (if continuous p then <[name p := []]> (delay_derivs m)
           else delay_derivs m)
          (if continuous p then <[name p := []]> (phase_derivs m)
           else phase_derivs m)
          (d_phase_funcs m) (<[name p := p]> (attrs m)))).
Proof.
  split_and!.
  - intros Hbound. by apply add_param_duplicate, hasattr_registered.
  - intros (_ & Hin & _) Hp.
    apply add_param_duplicate, hasattr_registered, Hin, Hp.
  - apply add_param_registers.
Qed.

(** C10: a parameter named like an attribute the model has from its class
    or from [__init__] is refused with [DuplicateParameter], the model is
    left as it was, and no reachable model has such a name registered. *)
Theorem add_param_existing_attribute m p :
  name p ∈ init_attrs ++ class_attrs →
  add_param p m = (Raise (DuplicateParameter (name p)), m)
  ∧ (reachable m → (name p ∉ params m) ∧ attrs m !! (name p) = None).
Proof.
  intros Hn. split.
  - by apply add_param_duplicate, hasattr_builtin.
  - intros (_ & _ & Hbuiltin)%reachable_wf.
    destruct (Hbuiltin _ Hn). done.
Qed.

Example attribute_names :
  Forall (λ n, n ∈ init_attrs ++ class_attrs)
    ["params"; "delay_funcs"; "setup"; "delay"; "phase"].
Proof. repeat constructor; by apply bool_decide_unpack. Qed.

(** ** TimingModel: delays *)

Lemma accumulate_foldl (fs : list (TOA → delay_t)) toa acc :
  accumulate fs toa acc = foldl add acc ((λ f, f toa) <$> fs).
Proof.
  revert acc. induction fs as [|f fs IH]; intros acc; [done|]. apply IH.
Qed.

Lemma accumulate_snoc (fs : list (TOA → delay_t)) f toa acc :
  accumulate (fs ++ [f]) toa acc = add (accumulate fs toa acc) (f toa).
Proof.
  revert acc. induction fs as [|g fs IH]; intros acc; [done|]. apply IH.
Qed.

(** C8: [delay] over no component function is zero, and over the
    registered functions it is the sum, from zero and in registration
    order, of the values the functions return for the TOA; one more
    function adds its value to the sum. *)
Theorem delay_sum m toa :
  delay m toa = foldl add zero ((λ f, f toa) <$> delay_funcs m)
  ∧ (∀ ps pfs dd pd dpfs ats,
       delay (mkTimingModel ps [] pfs dd pd dpfs ats) toa = zero)
  ∧ (∀ ps fs f pfs dd pd dpfs ats,
       delay (mkTimingModel ps (fs ++ [f]) pfs dd pd dpfs ats) toa
       = add (delay (mkTimingModel ps fs pfs dd pd dpfs ats) toa) (f toa)).
Proof.
  split_and!.
  - apply accumulate_foldl.
  - done.
  - intros. apply accumulate_snoc.
Qed.

(** C6, as the code has it: for a name that has an entry in
    [delay_derivs], [d_delay_d_param] returns the sum, from zero, of the
    values of the entry's functions for the TOA, so zero for an empty entry,
    as [add_param] creates for a continuous parameter; for a name without an
    entry it raises [KeyError]. *)
Theorem d_delay_d_param_spec m toa param :
  d_delay_d_param m toa param =
    match delay_derivs m !! param with
    | Some fs => Ret (foldl add zero ((λ f, f toa) <$> fs))
    | None => Raise (KeyError param)
    end
  ∧ (delay_derivs m !! param = Some [] →
     d_delay_d_param m toa param = Ret zero)
  ∧ (∀ p, hasattr m (name p) = false → continuous p = true →
     d_delay_d_param (snd (add_param p m)) toa (name p) = Ret zero).
Proof.
  unfold d_delay_d_param. split_and!.
  - destruct (delay_derivs m !! param); [|done]. by rewrite accumulate_foldl.
  - by intros ->.
  - intros p Hhas Hc. rewrite add_param_registers by done.
    cbn [snd delay_derivs]. by rewrite Hc, lookup_insert_eq.
Qed.

(** ** TimingModel: reading a parfile *)

Lemma set_attrs_id m : set_attrs (attrs m) m = m.
Proof. by destruct m. Qed.

Lemma existsb_ext_in {A} (f g : A → bool) (l : list A) :
  (∀ x, x ∈ l → f x = g x) → existsb f l = existsb g l.
Proof.
  induction l as [|x l IH]; intros Hfg; [done|]. simpl.
  rewrite Hfg by left. f_equal. apply IH. intros y Hy. apply Hfg. by right.
Qed.

(** The inner loop: every parameter of [ps] is offered the line. *)
Lemma offer_loop h l ps m b :
  NoDup ps →
  (∀ par, par ∈ ps →
     ∃ p, attrs m !! par = Some p
          ∧ (claims h p l = true → accepts p l = true)) →
  for_fold ps b (offer h l) m =
    (Ret (b || existsb (claimed_by h m l) ps),
     set_attrs
       (map_imap (λ par p, Some (if bool_decide (par ∈ ps)
                                 then offer_lines h [l] p else p)) (attrs m))
       m).
Proof.
  revert m b. induction ps as [|par ps IH]; intros m b Hnd Hps.
  - simpl. unfold ret. rewrite orb_false_r. f_equal.
    rewrite <- (set_attrs_id m) at 1. f_equal. apply map_eq. intros i.
    rewrite map_lookup_imap. by destruct (attrs m !! i).
  - apply NoDup_cons in Hnd as [Hpar Hnd].
    destruct (Hps par) as (p & Hp & Hacc); [by left|].
    cbn [for_fold]. unfold bind at 1. unfold offer at 1.
    unfold bind at 1. unfold on_attr at 1. rewrite Hp.
    pose proof (from_parfile_line_ret h l p Hacc) as Hret.
    destruct (from_parfile_line h l p) as [r p'] eqn:Hfpl.
    cbn [fst] in Hret. subst r.
    assert (∀ par', par' ∈ ps →
              attrs (setattr par p' m) !! par' = attrs m !! par') as Hsame.
    { intros par' Hpar'. cbn [attrs setattr].
      rewrite lookup_insert_ne; [done|]. by intros ->. }
    assert ((if claims h p l then ret true else ret b) (setattr par p' m)
            = (Ret (b || claims h p l), setattr par p' m)) as ->.
    { destruct (claims h p l), b; done. }
    rewrite IH; [|done|].
    2:{ intros par' Hpar'. rewrite Hsame by done. apply Hps. by right. }
    f_equal.
    + cbn [existsb]. rewrite <- orb_assoc. do 2 f_equal. f_equal.
      * unfold claimed_by. by rewrite Hp.
      * apply existsb_ext_in. intros par' Hpar'. unfold claimed_by.
        by rewrite Hsame.
    + unfold set_attrs, setattr. cbn [params delay_funcs phase_funcs
        delay_derivs phase_derivs d_phase_funcs attrs]. f_equal.
      apply map_eq. intros i. rewrite !map_lookup_imap.
      destruct (decide (i = par)) as [->|Hne].
      * rewrite lookup_insert_eq, Hp. cbn.
        rewrite bool_decide_eq_false_2 by done.
        rewrite bool_decide_eq_true_2 by left.
        unfold offer_lines. cbn. by rewrite Hfpl.
      * rewrite lookup_insert_ne by done.
        destruct (attrs m !! i) as [pi|]; [|done]. cbn. f_equal.
        rewrite (bool_decide_ext (i ∈ par :: ps) (i ∈ ps)); [done|].
        rewrite elem_of_cons. split; [by intros [?|?]|by right].
Qed.

Lemma after_lines_lookup h ls m par :
  attrs (after_lines h ls m) !! par =
    (λ p, if bool_decide (par ∈ params m) then offer_lines h ls p else p)
      <$> attrs m !! par.
Proof.
  unfold after_lines. cbn [attrs set_attrs]. rewrite map_lookup_imap.
  by destruct (attrs m !! par).
Qed.

Lemma after_lines_cons h l ls m :
  after_lines h ls (after_lines h [l] m) = after_lines h (l :: ls) m.
Proof.
  unfold after_lines at 1. unfold set_attrs. cbn [params delay_funcs
    phase_funcs delay_derivs phase_derivs d_phase_funcs after_lines set_attrs].
  unfold after_lines at 2. unfold set_attrs. f_equal.
  apply map_eq. intros i. rewrite !map_lookup_imap, after_lines_lookup.
  destruct (attrs m !! i) as [p|]; [|done]. cbn.
  by destruct (bool_decide (i ∈ params m)).
Qed.

Lemma after_lines_nil h m : after_lines h [] m = m.
Proof.
  unfold after_lines. rewrite <- (set_attrs_id m) at 3. f_equal.
  apply map_eq. intros i. rewrite map_lookup_imap.
  destruct (attrs m !! i) as [p|]; [|done]. cbn. by destruct (bool_decide _).
Qed.

Lemma wf_after_lines h ls m : wf_model m → wf_model (after_lines h ls m).
Proof.
  intros (Hnd & Hin & Hbuiltin). split_and!; [done|..].
  - intros par Hpar. rewrite after_lines_lookup.
    apply fmap_is_Some. by apply Hin.
  - intros n Hn. destruct (Hbuiltin n Hn) as [Hnone Hnotin]. split; [|done].
    by rewrite after_lines_lookup, Hnone.
Qed.

Lemma claimed_by_after h l l' m par :
  claimed_by h (after_lines h [l] m) l' par = claimed_by h m l' par.
Proof.
  unfold claimed_by. rewrite after_lines_lookup.
  destruct (attrs m !! par) as [p|]; [|done]. cbn.
  destruct (bool_decide (par ∈ params m)); [|done].
  destruct (from_parfile_line_static h l p) as (Hn & Ha & _).
  apply claims_static; [done|]. unfold aliases_of. by rewrite Ha.
Qed.

Lemma unclaimed_after h l l' m :
  unclaimed h (after_lines h [l] m) l' = unclaimed h m l'.
Proof.
  unfold unclaimed. f_equal. apply existsb_ext_in. intros par _.
  apply claimed_by_after.
Qed.

Lemma all_accepted_after h l m ls :
  all_accepted h m ls → all_accepted h (after_lines h [l] m) ls.
Proof.
  intros Hacc l' par p' Hl' Hpar. rewrite after_lines_lookup.
  destruct (attrs m !! par) as [p|] eqn:Hp; [|done]. cbn.
  cbn [params after_lines set_attrs] in Hpar.
  rewrite bool_decide_eq_true_2 by done. intros [= <-].
  destruct (from_parfile_line_static h l p) as (Hn & Ha & Hpv).
  rewrite (claims_static h h p) by (done || by unfold aliases_of; rewrite Ha).
  rewrite (accepts_static p) by done. by apply (Hacc l' par).
Qed.

(** One iteration of the outer loop. *)
Lemma read_line_spec h l m log :
  wf_model m → all_accepted h m [l] → skipped l = false →
  read_line h l (m, log) =
    (Ret tt, (after_lines h [l] m,
              log ++ (if unclaimed h m l then [Warn (warning l)] else []))).
Proof.
  intros (Hnd & Hin & _) Hacc Hskip. unfold skipped in Hskip.
  apply orb_false_iff in Hskip as [Hblank Hcomment].
  unfold read_line. rewrite Hblank, Hcomment.
  unfold bind at 1. unfold on_model at 1, get at 1. cbv beta iota.
  unfold bind at 1. unfold on_model at 1.
  rewrite offer_loop; [|done|].
  2:{ intros par Hpar. destruct (Hin par Hpar) as [p Hp]. exists p.
      split; [done|]. apply (Hacc l par); [by left|done..]. }
  cbn [orb]. fold (unclaimed h m l). fold (after_lines h [l] m).
  destruct (unclaimed h m l); cbn [when].
  - unfold bind, lift. rewrite format_warning. unfold emit, modify. done.
  - unfold ret. by rewrite app_nil_r.
Qed.

Lemma read_line_skip h l s : skipped l = true → read_line h l s = (Ret tt, s).
Proof.
  unfold skipped, read_line. intros Hskip.
  destruct (bool_decide (l = "")); [done|]. cbn in Hskip. by rewrite Hskip.
Qed.

(** The outer loop. *)
Lemma read_lines_spec h ls m log :
  wf_model m →
  all_accepted h m (filter (λ l, skipped l = false) ls) →
  for_each ls (read_line h) (m, log) =
    (Ret tt,
     (after_lines h (filter (λ l, skipped l = false) ls) m,
      log ++ (Warn ∘ warning
                <$> filter (λ l, unclaimed h m l = true)
                      (filter (λ l, skipped l = false) ls)))).
Proof.
  revert m log. induction ls as [|l ls IH]; intros m log Hwf Hacc.
  - cbn. unfold ret. by rewrite after_lines_nil, app_nil_r.
  - cbn [for_each]. unfold bind at 1.
    destruct (skipped l) eqn:Hskip.
    + rewrite read_line_skip by done.
      rewrite filter_cons_False in Hacc |- * by congruence. by apply IH.
    + rewrite filter_cons_True in Hacc |- * by done.
      rewrite read_line_spec; [|done| |done].
      2:{ intros l' par p ->%list_elem_of_singleton. apply Hacc. by left. }
      rewrite IH; [|by apply wf_after_lines|].
      2:{ apply all_accepted_after. intros l' par p Hl'. apply Hacc. by right. }
      rewrite after_lines_cons. do 2 f_equal. rewrite <- app_assoc. f_equal.
      rewrite (list_filter_iff (λ l', unclaimed h (after_lines h [l] m) l' = true)
                 (λ l', unclaimed h m l' = true))
        by (intros l'; by rewrite unclaimed_after).
      destruct (unclaimed h m l) eqn:Hun.
      * by rewrite filter_cons_True by done.
      * by rewrite filter_cons_False by congruence.
Qed.

(** C7, as the code has it: when no parser raises on the lines that are
    not skipped, [read_parfile] skips the blank lines and the lines that
    start with [#] once stripped, offers every other line in turn to every
    registered parameter, emits one warning for each line that no parameter
    claims and goes on, and then calls [setup] once, on the model that
    results from all the lines. *)
Theorem read_parfile_spec h (stp : M TimingModel unit) lines m log :
  wf_model m →
  all_accepted h m (relevant lines) →
  read_parfile h stp lines (m, log) =
    (fst (stp (after_lines h (relevant lines) m)),
     (snd (stp (after_lines h (relevant lines) m)),
      log ++ (Warn ∘ warning
                <$> filter (λ l, unclaimed h m l = true) (relevant lines))
          ++ [SetupCall])).
Proof.
  intros Hwf Hacc. unfold read_parfile, relevant in *.
  unfold bind at 1. rewrite read_lines_spec by done.
  unfold bind, emit, modify, on_model.
  destruct (stp _) as [r m']. cbn. by rewrite <- app_assoc.
Qed.
End timing_model_facts.

(** * The properties at concrete inputs *)

Section example_facts.
#[local] Existing Instance decimal_numeric.
#[local] Existing Instance Z_delays.

Example model0_content :
  params model0 = ["PSR"] ∧ attrs model0 !! "PSR" = Some psr
  ∧ aliases_of heap0 psr = ["PSRJ"; "PSRB"].
Proof. repeat split; reflexivity. Qed.

Lemma reachable_model0 : reachable model0.
Proof. apply (reachable_init initial_heap). Qed.

(** The line of [F0_fitted] is read back into a new [F0]. *)
Lemma parfile_line_round_trip_witness :
  ∃ line q,
    as_parfile_line F0_fitted = Ret line
    ∧ from_parfile_line initial_heap line (fresh_like F0_fitted None)
      = (Ret true, q)
    ∧ value q = value F0_fitted ∧ uncertainty q = uncertainty F0_fitted
    ∧ frozen q = frozen F0_fitted.
Proof.
  apply (parfile_line_round_trip initial_heap F0_fitted None
           (value F0_fitted) (uncertainty F0_fitted));
    try reflexivity.
  split; reflexivity.
Defined.

(** [PSR] with the value ["J1234 5"], which [str] prints and parses back
    exactly: the line has three fields, the new parameter gets the value
    ["J1234"] and is no longer frozen. *)
Lemma round_trip_fails_on_blank_in_value :
  is_none (value psr_spaced) = false
  ∧ parse_value psr_spaced (print_value psr_spaced (value psr_spaced))
    = Ret (value psr_spaced)
  ∧ ∃ line,
      as_parfile_line psr_spaced = Ret line
      ∧ split line = ["PSR"; "J1234"; "5"]
      ∧ fst (from_parfile_line heap0 line (fresh_like psr_spaced (Some psr_aliases)))
        = Ret true
      ∧ value (snd (from_parfile_line heap0 line
                      (fresh_like psr_spaced (Some psr_aliases))))
        ≠ value psr_spaced
      ∧ frozen (snd (from_parfile_line heap0 line
                       (fresh_like psr_spaced (Some psr_aliases))))
        ≠ frozen psr_spaced.
Proof.
  split; [reflexivity|]. split; [reflexivity|].
  eexists. split; [reflexivity|]. repeat split; try reflexivity; discriminate.
Qed.

(** [F0 100.0 1 0.0001]: value, cleared frozen flag and uncertainty. *)
Lemma from_parfile_line_claimed_witness :
  from_parfile_line initial_heap "F0 100.0 1 0.0001" F0
  = (Ret true,
     with_uncertainty (PyFloat (mkDecimal 1 (-4)))
       (with_frozen false (with_value (PyFloat (mkDecimal 1000 (-1))) F0))).
Proof.
  apply (from_parfile_line_claimed (H:=decimal_numeric)
           initial_heap "F0 100.0 1 0.0001" F0
           "F0" "100.0" ["1"; "0.0001"] _ 1 _).
  - reflexivity.
  - reflexivity.
  - reflexivity.
  - intros k2 [= <-]. reflexivity.
  - intros k3 _ [= <-]. reflexivity.
Defined.

(** A line of five fields: the fourth is there and [fortran_float] accepts
    it, but the uncertainty stays unset. *)
Lemma fourth_field_not_stored_with_five_fields :
  split "PSR J1234+1234 1 0.5 extra" !! 3%nat = Some "0.5"
  ∧ fortran_float "0.5" = Ret (mkDecimal 5 (-1))
  ∧ from_parfile_line heap0 "PSR J1234+1234 1 0.5 extra" psr
    = (Ret true, with_frozen false (with_value (PyStr "J1234+1234") psr))
  ∧ uncertainty (snd (from_parfile_line heap0 "PSR J1234+1234 1 0.5 extra" psr))
    ≠ PyFloat (mkDecimal 5 (-1)).
Proof. repeat split; try reflexivity. discriminate. Qed.



(** [add_param] refuses a second [PSR], on a new model and on one that
    holds a delay function, and registers [EPHEM]. *)
Lemma add_param_spec_witness :
  add_param psr model_with_delay
  = (Raise (DuplicateParameter "PSR"), model_with_delay)
  ∧ add_param psr model0 = (Raise (DuplicateParameter "PSR"), model0)
  ∧ params (snd (add_param EPHEM model_with_delay)) = ["PSR"; "EPHEM"]
  ∧ delay_derivs (snd (add_param EPHEM model_with_delay)) !! "EPHEM" = None.
Proof.
  split_and!.
  - apply (proj1 (add_param_spec model_with_delay psr)).
    exists psr. reflexivity.
  - apply (proj1 (proj2 (add_param_spec model0 psr))).
    + apply reachable_wf, reachable_model0.
    + vm_compute. left.
  - rewrite (proj2 (proj2 (add_param_spec model_with_delay EPHEM)))
      by reflexivity.
    reflexivity.
  - rewrite (proj2 (proj2 (add_param_spec model_with_delay EPHEM)))
      by reflexivity.
    reflexivity.
Defined.

(** A parameter named [PSRJ], an alias of the registered [PSR], is
    registered without error. *)
Lemma add_param_accepts_alias_name :
  attrs model0 !! "PSR" = Some psr
  ∧ name PSRJ ∈ aliases_of heap0 psr
  ∧ fst (add_param PSRJ model0) = Ret tt
  ∧ params (snd (add_param PSRJ model0)) = ["PSR"; "PSRJ"].
Proof.
  repeat split; try reflexivity. vm_compute. left.
Qed.

(** [add_param] refuses a parameter named [params]. *)
Lemma add_param_existing_attribute_witness :
  add_param params_param model0 = (Raise (DuplicateParameter "params"), model0)
  ∧ (name params_param ∉ params model0)
  ∧ attrs model0 !! "params" = None.
Proof.
  destruct (add_param_existing_attribute model0 params_param) as [Hraise Hnot].
  - vm_compute. left.
  - split; [exact Hraise|]. apply Hnot, reachable_model0.
Defined.

(** [PSR] is continuous: its derivative of the delay is zero. *)
Lemma d_delay_d_param_spec_witness :
  d_delay_d_param model0 0 "PSR" = Ret 0.
Proof.
  apply (proj1 (proj2 (d_delay_d_param_spec model0 0 "PSR"))). reflexivity.
Defined.

(** [EPHEM] is registered and not continuous: it has no provider, and
    [d_delay_d_param] raises. *)
Lemma d_delay_d_param_raises_without_entry :
  fst (add_param EPHEM model0) = Ret tt
  ∧ params (snd (add_param EPHEM model0)) = ["PSR"; "EPHEM"]
  ∧ delay_derivs (snd (add_param EPHEM model0)) !! "EPHEM" = None
  ∧ d_delay_d_param (snd (add_param EPHEM model0)) 0 "EPHEM"
    = Raise (KeyError "EPHEM").
Proof. repeat split; reflexivity. Qed.

(** After [add_alias "FREQ"] on [F0], [F1] reads its value from a line
    that starts with [freq]. *)
Lemma default_aliases_shared_witness :
  "FREQ" ∈ aliases_of (add_alias F0 "FREQ" initial_heap) F1
  ∧ from_parfile_line (add_alias F0 "FREQ" initial_heap) "freq 12.5" F1
    = (Ret true, with_value (PyFloat (mkDecimal 125 (-1))) F1).
Proof.
  destruct (default_aliases_shared initial_heap "FREQ" "freq 12.5" "freq" "12.5" []
              "F0" "F1" PyNone PyNone PyNone PyNone (Some "Hz") (Some "Hz/s")
              (Some "Spin frequency") (Some "Spin down") true true true true
              None None None None)
    as (_ & Hin & _ & _ & _ & Hset); [reflexivity..|].
  split; [exact Hin|].
  assert (parse_value F1 "12.5" = Ret (PyFloat (mkDecimal 125 (-1)))) as Hv
    by reflexivity.
  etrans; [apply (Hset _ 0 (mkDecimal 0 0) Hv)|reflexivity].
  - intros k2 Hk2. discriminate Hk2.
  - intros k3 Hlen. discriminate Hlen.
Defined.

(** After [add_alias "freq"] on [F0] the alias is in the list of [F1], and
    [F1] rejects the line whose first token is [freq]: the token is compared
    in upper case. *)
Lemma lower_case_alias_not_matched :
  "freq" ∈ aliases_of (add_alias F0 "freq" initial_heap) F1
  ∧ split "freq 12.5" !! 0%nat = Some "freq"
  ∧ from_parfile_line (add_alias F0 "freq" initial_heap) "freq 12.5" F1
    = (Ret false, F1).
Proof. split_and!; [vm_compute; left|reflexivity..]. Qed.

(** A parfile with a comment, a blank line, two lines for [PSR] and one
    foreign line: one warning, then [setup]; [PSR] has the last value. *)
Lemma read_parfile_spec_witness :
  read_parfile heap0 setup parfile_with_foreign_line (model0, [])
  = (Ret tt,
     (setattr "PSR" (with_value (PyStr "J1234+1234") psr) model0,
      [Warn "Unrecognized parfile line 'EPHEM DE421'"; SetupCall])).
Proof.
  rewrite (read_parfile_spec heap0 setup parfile_with_foreign_line model0 []).
  - reflexivity.
  - apply reachable_wf, reachable_model0.
  - intros l par p Hl Hpar Hp Hclaims.
    assert (par = "PSR") as ->.
    { vm_compute in Hpar. by apply list_elem_of_singleton in Hpar. }
    assert (attrs model0 !! "PSR" = Some psr) as Hpsr by reflexivity.
    assert (p = psr) as -> by congruence.
    vm_compute in Hl.
    repeat (apply elem_of_cons in Hl as [->|Hl]; [reflexivity|]).
    by apply elem_of_nil in Hl.
Defined.

(** A parfile whose first line has a fit flag that is not an integer: the
    error leaves [read_parfile], the second line is not looked at (no
    warning) and [setup] is not called. *)
Lemma read_parfile_raises_on_bad_flag :
  read_parfile heap0 setup parfile_with_bad_flag (model0, [])
  = (Raise (ValueError "invalid literal for int() with base 10: 'x'"),
     (setattr "PSR" (with_value (PyStr "J1234") psr) model0, [])).
Proof. reflexivity. Qed.
End example_facts.

(** * Further properties of the parameters *)

Lemma upper_char_idem c : upper_char (upper_char c) = upper_char c.
Proof. by destruct c as [[] [] [] [] [] [] [] []]. Qed.

Lemma upper_idem s : upper (upper s) = upper s.
Proof.
  induction s as [|c s IH]; [done|]. simpl. by rewrite upper_char_idem, IH.
Qed.

Lemma split_lstrip s : split (lstrip s) = split s.
Proof.
  induction s as [|c s IH]; [done|]. unfold split in *. simpl.
  destruct (is_space c) eqn:Hc; [done|]. simpl. by rewrite Hc.
Qed.

Lemma split_from_rstrip s cur : split_from cur (rstrip s) = split_from cur s.
Proof.
  revert cur. induction s as [|c s IH]; intros cur; [done|].
  simpl rstrip. destruct (rstrip s) as [|c' r] eqn:Hr.
  - destruct (is_space c) eqn:Hc; simpl; rewrite Hc.
    + rewrite <- (IH EmptyString). by destruct cur.
    + by rewrite <- IH.
  - simpl. destruct (is_space c); [|by rewrite <- IH].
    rewrite <- (IH EmptyString). by destruct cur.
Qed.

Lemma split_strip s : split (strip s) = split s.
Proof. unfold strip, split. by rewrite split_from_rstrip, split_lstrip. Qed.

Section parameter_more.
Context `{Numeric}.
Implicit Types (p q : Param) (h : heap).

(** What a parameter does with a line depends on the store only through its
    own alias list. *)
Lemma read_fields_aliases h h' k p :
  aliases_of h' p = aliases_of h p → read_fields h' k p = read_fields h k p.
Proof.
  intros Ha. unfold read_fields, name_matches. by rewrite Ha.
Qed.

(** Every field but the value, the frozen flag and the uncertainty is kept,
    whatever the line and whether the call returns or raises. *)
Lemma from_parfile_line_keeps h line p :
  name (snd (from_parfile_line h line p)) = name p
  ∧ units (snd (from_parfile_line h line p)) = units p
  ∧ description (snd (from_parfile_line h line p)) = description p
  ∧ continuous (snd (from_parfile_line h line p)) = continuous p
  ∧ aliases (snd (from_parfile_line h line p)) = aliases p
  ∧ parse_value (snd (from_parfile_line h line p)) = parse_value p
  ∧ print_value (snd (from_parfile_line h line p)) = print_value p.
Proof.
  rewrite from_parfile_line_fields. unfold read_fields, after_flag.
  destruct (split line) as [|k0 [|k1 [|k2 [|k3 [|k4 rest]]]]];
    repeat case_match; done.
Qed.

(** X1: [from_parfile_line] only ever writes the value, the frozen flag and
    the uncertainty, and it never freezes: a parameter that is frozen
    afterwards was frozen before, on every line and also when the call
    raises. *)
Theorem from_parfile_line_frame h line p :
  name (snd (from_parfile_line h line p)) = name p
  ∧ units (snd (from_parfile_line h line p)) = units p
  ∧ description (snd (from_parfile_line h line p)) = description p
  ∧ continuous (snd (from_parfile_line h line p)) = continuous p
  ∧ aliases (snd (from_parfile_line h line p)) = aliases p
  ∧ parse_value (snd (from_parfile_line h line p)) = parse_value p
  ∧ print_value (snd (from_parfile_line h line p)) = print_value p
  ∧ (frozen (snd (from_parfile_line h line p)) = true → frozen p = true).
Proof.
  destruct (from_parfile_line_keeps h line p) as (?&?&?&?&?&?&?).
  split_and!; try done.
  rewrite from_parfile_line_fields. unfold read_fields, after_flag.
  destruct (split line) as [|k0 [|k1 [|k2 [|k3 [|k4 rest]]]]];
    repeat case_match; done.
Qed.

(** X2: white space around a line does not matter, and a line that is blank
    once stripped is claimed by no parameter and changes nothing. *)
Theorem from_parfile_line_strip h line p :
  from_parfile_line h (strip line) p = from_parfile_line h line p
  ∧ (strip line = "" → from_parfile_line h line p = (Ret false, p)).
Proof.
  rewrite !from_parfile_line_fields, split_strip. split; [done|].
  intros Hblank. by rewrite <- split_strip, Hblank.
Qed.

(** X3: the first field is read without regard to case: two lines with the
    same fields, up to the case of the letters of the first, have the same
    effect on every parameter. *)
Theorem from_parfile_line_case_insensitive h line line' k0 k0' ks p :
  split line = k0 :: ks → split line' = k0' :: ks →
  upper k0' = upper k0 →
  from_parfile_line h line' p = from_parfile_line h line p.
Proof.
  intros Hl Hl' Hup. rewrite !from_parfile_line_fields, Hl, Hl'.
  unfold read_fields, name_matches. by rewrite Hup.
Qed.

Lemma aliases_of_add_alias h p a :
  aliases_of (add_alias p a h) p = aliases_of h p ++ [a].
Proof. unfold add_alias, aliases_of. apply lookup_total_insert_eq. Qed.

(** X4: after [add_alias a] the parameter claims the lines it claimed
    before and those of two fields or more whose first field reads [a] in
    upper case; so an alias with a lower-case letter is never matched and
    adding it changes nothing. *)
Theorem add_alias_claims h p a line :
  claims (add_alias p a h) p line
  = claims h p line
    || match split line with
       | k0 :: _ :: _ => bool_decide (upper k0 = a)
       | _ => false
       end
  ∧ (upper a ≠ a → claims (add_alias p a h) p line = claims h p line).
Proof.
  assert (claims (add_alias p a h) p line
          = claims h p line
            || match split line with
               | k0 :: _ :: _ => bool_decide (upper k0 = a)
               | _ => false
               end) as Hchar.
  { unfold claims, name_matches. rewrite aliases_of_add_alias.
    destruct (split line) as [|k0 [|k1 rest]]; [done..|].
    rewrite <- orb_assoc. f_equal.
    rewrite <- bool_decide_or. apply bool_decide_ext.
    rewrite elem_of_app, list_elem_of_singleton. done. }
  split; [done|]. intros Hlow. rewrite Hchar.
  destruct (split line) as [|k0 [|k1 rest]]; rewrite ?orb_false_r; try done.
  rewrite bool_decide_eq_false_2; [by rewrite orb_false_r|].
  intros <-. by rewrite upper_idem in Hlow.
Qed.

(** X5: [add_alias] on one parameter changes nothing for a parameter that
    holds another list. *)
Theorem add_alias_other_list h p q a line :
  aliases q ≠ aliases p →
  aliases_of (add_alias p a h) q = aliases_of h q
  ∧ from_parfile_line (add_alias p a h) line q = from_parfile_line h line q.
Proof.
  intros Hne.
  assert (aliases_of (add_alias p a h) q = aliases_of h q) as Ha.
  { unfold add_alias, aliases_of. by rewrite lookup_total_insert_ne. }
  split; [done|]. rewrite !from_parfile_line_fields.
  by apply read_fields_aliases.
Qed.
End parameter_more.

(** * Further properties of the model *)

Section registry_facts.
Context `{Numeric} `{DelayAlgebra}.
Implicit Types (m : TimingModel) (p : Param) (h : heap).

Lemma hasattr_blank_PSR : hasattr blank_model "PSR" = false.
Proof. reflexivity. Qed.

Lemma TimingModel_init_eq h :
  TimingModel_init h =
    (Ret tt,
     mkTimingModel ["PSR"] [] [] {["PSR" := []]} {["PSR" := []]} []
       {["PSR" := PSR (fresh (dom h))]},
     <[fresh (dom h) := ["PSRJ"; "PSRB"]]> h).
Proof.
  unfold TimingModel_init, alloc.
  rewrite add_param_registers by apply hasattr_blank_PSR. done.
Qed.

(** X6: a new model has [PSR], and only [PSR], registered, continuous and
    with empty provider lists; its alias list [PSRJ], [PSRB] is a new list:
    the lists that existed are unchanged, and [add_alias] on a parameter
    that existed before does not change what [PSR] matches. *)
Theorem TimingModel_init_spec h :
  ∃ ℓ,
    (ℓ ∉ dom h)
    ∧ TimingModel_init h =
        (Ret tt,
         mkTimingModel ["PSR"] [] [] {["PSR" := []]} {["PSR" := []]} []
           {["PSR" := PSR ℓ]},
         <[ℓ := ["PSRJ"; "PSRB"]]> h)
    ∧ aliases_of (snd (TimingModel_init h)) (PSR ℓ) = ["PSRJ"; "PSRB"]
    ∧ (∀ ℓ', ℓ' ∈ dom h →
         snd (TimingModel_init h) !! ℓ' = h !! ℓ')
    ∧ (∀ q a, aliases q ∈ dom h →
         aliases_of (add_alias q a (snd (TimingModel_init h))) (PSR ℓ)
         = ["PSRJ"; "PSRB"]).
Proof.
  exists (fresh (dom h)). pose proof (is_fresh (dom h)) as Hfresh.
  rewrite TimingModel_init_eq. cbn [snd]. split_and!; [done..| | |].
  - unfold aliases_of. cbn [aliases PSR Parameter_init default from_option].
    apply lookup_total_insert_eq.
  - intros ℓ' Hℓ'. rewrite lookup_insert_ne; [done|]. by intros <-.
  - intros q a Hq. unfold add_alias, aliases_of at 1.
    cbn [aliases PSR Parameter_init default from_option].
    rewrite lookup_total_insert_ne; [apply lookup_total_insert_eq|].
    intros Heq. by rewrite Heq in Hq.
Qed.

Lemma hasattr_after_add_param m p : hasattr (snd (add_param p m)) (name p) = true.
Proof.
  destruct (hasattr m (name p)) eqn:Hhas.
  - by rewrite add_param_duplicate.
  - rewrite add_param_registers by done. apply hasattr_registered.
    cbn [snd attrs]. rewrite lookup_insert_eq. eauto.
Qed.

(** X7: whatever the model, once [add_param] was called with a parameter,
    calling it again with a parameter of that name raises
    [DuplicateParameter] and changes nothing. *)
Theorem add_param_again m p p' :
  name p' = name p →
  add_param p' (snd (add_param p m))
  = (Raise (DuplicateParameter (name p)), snd (add_param p m)).
Proof.
  intros Hname. rewrite <- Hname. apply add_param_duplicate.
  rewrite Hname. apply hasattr_after_add_param.
Qed.

Lemma registry_init h : registry_ok (snd (fst (TimingModel_init h))).
Proof.
  rewrite TimingModel_init_eq. cbn [fst snd]. split_and!; cbn [params attrs].
  - apply NoDup_singleton.
  - intros par. rewrite list_elem_of_singleton. split.
    + intros ->. rewrite lookup_singleton_eq. eauto.
    + intros [p Hp]. by apply lookup_singleton_Some in Hp as [-> _].
  - intros par p [<- <-]%lookup_singleton_Some. done.
  - done.
Qed.

Lemma derivs_init h : derivs_ok (snd (fst (TimingModel_init h))).
Proof.
  rewrite TimingModel_init_eq. cbn [fst snd]. intros n.
  cbn [delay_derivs phase_derivs attrs].
  destruct (decide (n = "PSR")) as [->|Hne].
  - rewrite !lookup_singleton_eq. split; (split; [eauto|]); eauto.
  - rewrite !lookup_singleton_ne by done.
    split; (split; [by intros [? ?]|by intros (? & ? & ?)]).
Qed.

Lemma registry_add_param m p :
  registry_ok m → registry_ok (snd (add_param p m)).
Proof.
  intros (Hnd & Hin & Hname & Hhd).
  destruct (hasattr m (name p)) eqn:Hhas.
  { by rewrite add_param_duplicate. }
  rewrite add_param_registers by done. cbn [snd].
  apply hasattr_false in Hhas as [_ Hnone].
  split_and!; cbn [params attrs].
  - apply NoDup_app. split_and!; [done| |apply NoDup_singleton].
    intros par Hpar ->%list_elem_of_singleton.
    apply Hin in Hpar as [? ?]. congruence.
  - intros par. rewrite elem_of_app, list_elem_of_singleton, Hin.
    destruct (decide (name p = par)) as [->|Hne].
    + rewrite lookup_insert_eq. split; eauto.
    + rewrite lookup_insert_ne by done. split; [by intros [?| ->]|by left].
  - intros par p'. destruct (decide (name p = par)) as [<-|Hne].
    + rewrite lookup_insert_eq. by intros [= <-].
    + rewrite lookup_insert_ne by done. apply Hname.
  - by destruct (params m).
Qed.

Lemma derivs_add_param m p :
  derivs_ok m → derivs_ok (snd (add_param p m)).
Proof.
  intros Hd. destruct (hasattr m (name p)) eqn:Hhas.
  { by rewrite add_param_duplicate. }
  rewrite add_param_registers by done. cbn [snd].
  apply hasattr_false in Hhas as [_ Hnone].
  intros n. cbn [delay_derivs phase_derivs attrs].
  destruct (Hd n) as [Hdel Hph].
  destruct (decide (name p = n)) as [<-|Hne].
  - rewrite lookup_insert_eq. rewrite Hnone in Hdel, Hph.
    destruct (continuous p) eqn:Hc.
    + rewrite !lookup_insert_eq. split; (split; [eauto|]); eauto.
    + split; (split; [intros Hsome|intros (p' & [= <-] & ?); congruence]).
      * apply Hdel in Hsome as (? & ? & _). done.
      * apply Hph in Hsome as (? & ? & _). done.
  - rewrite lookup_insert_ne by done.
    destruct (continuous p); rewrite ?lookup_insert_ne by done; done.
Qed.

Lemma registry_on_attr {A} m par (c : M Param A) :
  (∀ p, name (snd (c p)) = name p) →
  registry_ok m → registry_ok (snd (on_attr par c m)).
Proof.
  intros Hc (Hnd & Hin & Hname & Hhd). unfold on_attr.
  destruct (attrs m !! par) as [p|] eqn:Hpar; [|done].
  specialize (Hc p). destruct (c p) as [r p']. cbn [snd] in *.
  split_and!; cbn [params attrs setattr]; [done| | |done].
  - intros par'. rewrite Hin. destruct (decide (par = par')) as [<-|Hne].
    + rewrite lookup_insert_eq, Hpar. split; eauto.
    + by rewrite lookup_insert_ne.
  - intros par' q. destruct (decide (par = par')) as [<-|Hne].
    + rewrite lookup_insert_eq. intros [= <-]. rewrite Hc. by apply Hname.
    + rewrite lookup_insert_ne by done. apply Hname.
Qed.

Lemma derivs_on_attr {A} m par (c : M Param A) :
  (∀ p, continuous (snd (c p)) = continuous p) →
  derivs_ok m → derivs_ok (snd (on_attr par c m)).
Proof.
  intros Hc Hd. unfold on_attr.
  destruct (attrs m !! par) as [p|] eqn:Hpar; [|done].
  specialize (Hc p). destruct (c p) as [r p']. cbn [snd] in *.
  intros n. cbn [delay_derivs phase_derivs attrs setattr].
  destruct (Hd n) as [Hdel Hph]. destruct (decide (par = n)) as [<-|Hne].
  - rewrite lookup_insert_eq. rewrite Hpar in Hdel, Hph.
    rewrite Hdel, Hph.
    assert ((∃ p0, Some p = Some p0 ∧ continuous p0 = true)
            ↔ ∃ p0, Some p' = Some p0 ∧ continuous p0 = true) as Hiff.
    { split; intros (q & [= <-] & ?); eexists; (split; [done|congruence]). }
    by split.
  - by rewrite lookup_insert_ne.
Qed.

(** X8: in every model obtained from the constructor by [add_param] and
    by parameters reading lines, the registered names are distinct, they are exactly the names bound to a parameter, each is bound
    to a parameter of that name, and [PSR] is the first of them. *)
Theorem reachable_registry m : reachable m → registry_ok m.
Proof.
  induction 1 as [h|m p _ IH|m h line par _ IH].
  - apply registry_init.
  - by apply registry_add_param.
  - apply registry_on_attr; [|done]. intros p.
    by destruct (from_parfile_line_keeps h line p) as (? & _).
Qed.

Lemma reachable_derivs m : reachable m → derivs_ok m.
Proof.
  induction 1 as [h|m p _ IH|m h line par _ IH].
  - apply derivs_init.
  - by apply derivs_add_param.
  - apply derivs_on_attr; [|done]. intros p.
    by destruct (from_parfile_line_keeps h line p) as (_ & _ & _ & ? & _).
Qed.

(** X9: in every model obtained from the constructor by [add_param] and
    by parameters reading lines, the two derivative mappings have an entry for the same names, those of the registered continuous
    parameters, and [d_delay_d_param] raises [KeyError] exactly for the
    other names. *)
Theorem reachable_derivative_entries m toa n :
  reachable m →
  (is_Some (delay_derivs m !! n) ↔ is_Some (phase_derivs m !! n))
  ∧ (is_Some (delay_derivs m !! n)
     ↔ ∃ p, attrs m !! n = Some p ∧ continuous p = true)
  ∧ (d_delay_d_param m toa n = Raise (KeyError n)
     ↔ ¬ ∃ p, attrs m !! n = Some p ∧ continuous p = true).
Proof.
  intros Hm. destruct (reachable_derivs m Hm n) as [Hdel Hph].
  split_and!; [by rewrite Hdel, Hph|done|].
  rewrite <- Hdel. unfold d_delay_d_param.
  destruct (delay_derivs m !! n) as [fs|].
  - split; [done|]. intros Hnone. destruct Hnone. eauto.
  - split; [|done]. intros _ [? ?]. done.
Qed.
End registry_facts.

(** ** Loops and invariants *)

Lemma bind_keeps {S A B} (I : S → Prop) (c : M S A) (k : A → M S B) s :
  I (snd (c s)) → (∀ a s', I s' → I (snd (k a s'))) →
  I (snd (bind c k s)).
Proof.
  intros Hc Hk. unfold bind. destruct (c s) as [[a|e] s']; [|done].
  by apply Hk.
Qed.

Lemma for_fold_keeps {S A B} (I : S → Prop) (xs : list A) (b : B)
    (body : A → B → M S B) s :
  (∀ x b s, I s → I (snd (body x b s))) →
  I s → I (snd (for_fold xs b body s)).
Proof.
  intros Hbody. revert b s. induction xs as [|x xs IH]; intros b s Hs; [done|].
  cbn [for_fold]. apply bind_keeps; [by apply Hbody|]. intros. by apply IH.
Qed.

Lemma for_each_keeps {S A} (I : S → Prop) (xs : list A)
    (body : A → M S unit) s :
  (∀ x s, I s → I (snd (body x s))) →
  I s → I (snd (for_each xs body s)).
Proof.
  intros Hbody. revert s. induction xs as [|x xs IH]; intros s Hs; [done|].
  cbn [for_each]. apply bind_keeps; [by apply Hbody|]. intros. by apply IH.
Qed.

Section read_parfile_more.
Context `{Numeric} `{DelayAlgebra}.
Implicit Types (m : TimingModel) (p : Param) (h : heap).

Lemma same_kind_refl p : same_kind p p.
Proof. by repeat split. Qed.

Lemma same_kind_trans p1 p2 p3 :
  same_kind p1 p2 → same_kind p2 p3 → same_kind p1 p3.
Proof.
  intros (?&?&?&?&?&?&?&?) (?&?&?&?&?&?&?&?).
  repeat split; try congruence. auto.
Qed.

Lemma same_kind_from_parfile_line h line p :
  same_kind p (snd (from_parfile_line h line p)).
Proof.
  destruct (from_parfile_line_keeps h line p) as (?&?&?&?&?&?&?).
  repeat split; try done.
  rewrite from_parfile_line_fields. unfold read_fields, after_flag.
  destruct (split line) as [|k0 [|k1 [|k2 [|k3 [|k4 rest]]]]];
    repeat case_match; done.
Qed.

Lemma same_shape_refl m : same_shape m m.
Proof.
  repeat split. intros par. destruct (attrs m !! par); constructor.
  apply same_kind_refl.
Qed.

Lemma same_shape_trans m1 m2 m3 :
  same_shape m1 m2 → same_shape m2 m3 → same_shape m1 m3.
Proof.
  intros (?&?&?&?&?&?&H12) (?&?&?&?&?&?&H23).
  repeat split; try congruence. intros par.
  specialize (H12 par). specialize (H23 par).
  destruct H12 as [p1 p2 Hk12|]; inversion H23 as [? p3 Hk23|]; constructor.
  by eapply same_kind_trans.
Qed.

Lemma same_shape_on_attr h line par m :
  same_shape m (snd (on_attr par (from_parfile_line h line) m)).
Proof.
  unfold on_attr. destruct (attrs m !! par) as [p|] eqn:Hp;
    [|apply same_shape_refl].
  pose proof (same_kind_from_parfile_line h line p) as Hk.
  destruct (from_parfile_line h line p) as [r p']. cbn [snd] in *.
  repeat split. intros par'. cbn [attrs setattr].
  destruct (decide (par = par')) as [<-|Hne].
  - rewrite lookup_insert_eq, Hp. by constructor.
  - rewrite lookup_insert_ne by done.
    destruct (attrs m !! par'); constructor. apply same_kind_refl.
Qed.

Lemma same_shape_read_line h l m0 (s : TimingModel * list event) :
  same_shape m0 (fst s) → same_shape m0 (fst (snd (read_line h l s))).
Proof.
  intros Hs. unfold read_line.
  destruct (bool_decide (l = "")); [done|].
  destruct (startswith "#" l); [done|].
  apply (bind_keeps (λ s, same_shape m0 (fst s))).
  { by destruct s. }
  intros self s1 Hs1.
  apply (bind_keeps (λ s, same_shape m0 (fst s))).
  - destruct s1 as [m1 log1]. unfold on_model.
    pose proof (for_fold_keeps (same_shape m0) (params self) false
                  (offer h l) m1) as Hloop.
    destruct (for_fold (params self) false (offer h l) m1) as [r m2].
    cbn [fst snd] in *. apply Hloop; [|done].
    intros par b m Hm. unfold offer.
    apply (bind_keeps (same_shape m0)).
    + eapply same_shape_trans; [done|]. apply same_shape_on_attr.
    + intros claimed m' Hm'. by destruct claimed.
  - intros parsed s2 Hs2. unfold when.
    destruct (negb parsed); [|done].
    apply (bind_keeps (λ s, same_shape m0 (fst s))); [done|].
    intros msg [m3 log3] Hs3. done.
Qed.

(** X10: [read_parfile] of the base class leaves the registry as it is,
    also when it raises: the registered names, the component functions and
    the derivative mappings are unchanged, the same names are bound, every
    parameter keeps its name, units, description, continuity, alias list,
    parser and printer, and no parameter gets frozen. *)
Theorem read_parfile_keeps_shape h lines m log :
  same_shape m (fst (snd (read_parfile h setup lines (m, log)))).
Proof.
  unfold read_parfile.
  apply (bind_keeps (λ s, same_shape m (fst s))).
  - apply (for_each_keeps (λ s, same_shape m (fst s))).
    + intros l s. apply same_shape_read_line.
    + apply same_shape_refl.
  - intros _ s Hs.
    apply (bind_keeps (λ s, same_shape m (fst s))).
    + by destruct s.
    + intros _ [m' log'] Hs'. done.
Qed.
End read_parfile_more.

(** ** Writing and reading whole parfiles *)

Section parfile_facts.
Context `{Numeric} `{DelayAlgebra}.
Implicit Types (m : TimingModel) (p : Param) (h : heap).

Lemma parfile_line_ret p : as_parfile_line p = Ret (parfile_line p).
Proof. unfold parfile_line. by rewrite as_parfile_line_eq. Qed.

Lemma parfile_line_unset p : is_none (value p) = true → parfile_line p = "".
Proof.
  intros Hv. unfold parfile_line. by rewrite as_parfile_line_eq, Hv.
Qed.

Lemma as_parfile_from_spec m pars result :
  (∀ par, par ∈ pars → is_Some (attrs m !! par)) →
  as_parfile_from m pars result =
    Ret (result
         +:+ foldr String.append ""
               ((λ par, from_option parfile_line "" (attrs m !! par)) <$> pars)).
Proof.
  revert result. induction pars as [|par pars IH]; intros result Hin.
  - cbn. by rewrite app_empty_r.
  - destruct (Hin par) as [p Hp]; [by left|].
    cbn [as_parfile_from fmap list_fmap foldr]. rewrite Hp.
    rewrite parfile_line_ret. cbn [obind from_option].
    rewrite IH by (intros; apply Hin; by right). by rewrite app_assoc'.
Qed.

(** X11: on a model whose registered names are bound, [as_parfile] does
    not raise and returns the lines of the parameters in registration order;
    a parameter whose value is unset contributes nothing, so the parfile of
    a model without any set value is empty. *)
Theorem as_parfile_spec m :
  wf_model m →
  as_parfile m = Ret (foldr String.append "" (parfile_lines m))
  ∧ ((∀ par p, attrs m !! par = Some p → is_none (value p) = true) →
     as_parfile m = Ret "").
Proof.
  intros (_ & Hin & _).
  assert (as_parfile m = Ret (foldr String.append "" (parfile_lines m))) as Heq.
  { unfold as_parfile. by rewrite as_parfile_from_spec. }
  split; [done|]. intros Hunset. rewrite Heq. f_equal. clear Heq Hin.
  unfold parfile_lines. induction (params m) as [|par pars IH]; [done|].
  cbn [fmap list_fmap foldr]. rewrite IH.
  destruct (attrs m !! par) as [p|] eqn:Hp; [|done].
  cbn [from_option]. rewrite parfile_line_unset; [done|]. by eapply Hunset.
Qed.

Lemma concat_app (l1 l2 : list string) :
  foldr String.append "" (l1 ++ l2)
  = foldr String.append "" l1 +:+ foldr String.append "" l2.
Proof.
  induction l1 as [|s l1 IH]; [done|]. cbn [app foldr].
  by rewrite IH, app_assoc'.
Qed.

(** X12: registering a parameter appends its line to the parfile of the
    model, and nothing when its value is unset. *)
Theorem as_parfile_add_param m p :
  wf_model m → hasattr m (name p) = false →
  as_parfile (snd (add_param p m))
  = Ret (foldr String.append "" (parfile_lines m) +:+ parfile_line p).
Proof.
  intros (_ & Hin & _) Hhas. rewrite add_param_registers by done. cbn [snd].
  apply hasattr_false in Hhas as [_ Hnone].
  unfold as_parfile. rewrite as_parfile_from_spec; cbn [params attrs].
  2:{ intros par [Hpar| ->%list_elem_of_singleton]%elem_of_app.
      - destruct (Hin par Hpar) as [q Hq]. rewrite lookup_insert_ne; [eauto|].
        intros <-. congruence.
      - rewrite lookup_insert_eq. eauto. }
  rewrite app_empty_l, fmap_app, concat_app. cbn [fmap list_fmap foldr].
  rewrite lookup_insert_eq. cbn [from_option]. rewrite app_empty_r.
  do 3 f_equal. unfold parfile_lines. apply list_fmap_ext.
  intros i par Hpar%list_elem_of_lookup_2.
  destruct (Hin par Hpar) as [q Hq].
  rewrite lookup_insert_ne; [done|]. intros <-. congruence.
Qed.

Lemma read_parfile_base h lines m log :
  wf_model m → all_accepted h m (relevant lines) →
  read_parfile h setup lines (m, log) =
    (Ret tt,
     (after_lines h (relevant lines) m,
      log ++ (Warn ∘ warning
                <$> filter (λ l, unclaimed h m l = true) (relevant lines))
          ++ [SetupCall])).
Proof.
  intros Hwf Hacc. unfold read_parfile, relevant in *.
  unfold bind at 1. rewrite read_lines_spec by done.
  unfold bind, emit, modify, on_model, setup, ret. cbn.
  by rewrite <- app_assoc.
Qed.

Lemma offer_lines_unclaimed h ls p :
  (∀ l, l ∈ ls → claims h p l = false) → offer_lines h ls p = p.
Proof.
  unfold offer_lines. induction ls as [|l ls IH]; intros Hls; [done|].
  cbn [foldl]. rewrite from_parfile_line_false_unchanged.
  - apply IH. intros. apply Hls. by right.
  - apply from_parfile_line_false_iff, Hls. by left.
Qed.

(** X13: when no parser raises, [read_parfile] leaves a parameter that
    claims none of the lines exactly as it was. *)
Theorem read_parfile_untouched h lines m log par p :
  wf_model m → all_accepted h m (relevant lines) →
  attrs m !! par = Some p →
  (∀ l, l ∈ relevant lines → claims h p l = false) →
  attrs (fst (snd (read_parfile h setup lines (m, log)))) !! par = Some p.
Proof.
  intros Hwf Hacc Hp Hun. rewrite read_parfile_base by done. cbn [fst snd].
  rewrite after_lines_lookup, Hp. cbn. f_equal.
  destruct (bool_decide (par ∈ params m)); [|done].
  by apply offer_lines_unclaimed.
Qed.


End parfile_facts.

Section read_parfile_composition.
Context `{Numeric} `{DelayAlgebra}.
Implicit Types (m : TimingModel) (p : Param) (h : heap).

Lemma relevant_app (l1 l2 : list string) :
  relevant (l1 ++ l2) = relevant l1 ++ relevant l2.
Proof. unfold relevant. by rewrite fmap_app, filter_app. Qed.

Lemma after_lines_app h a b m :
  after_lines h (a ++ b) m = after_lines h b (after_lines h a m).
Proof.
  revert m. induction a as [|l a IH]; intros m.
  - by rewrite after_lines_nil.
  - cbn [app]. rewrite <- (after_lines_cons h l (a ++ b)).
    rewrite <- (after_lines_cons h l a). apply IH.
Qed.

Lemma all_accepted_after_lines h a m ls :
  all_accepted h m ls → all_accepted h (after_lines h a m) ls.
Proof.
  revert m. induction a as [|l a IH]; intros m Hacc.
  - by rewrite after_lines_nil.
  - rewrite <- (after_lines_cons h l a). by apply IH, all_accepted_after.
Qed.

(** X15: when no parser raises, reading a parfile in two parts, one call
    after the other, gives the model that reading it in one call gives. *)
Theorem read_parfile_app h lines1 lines2 m log log' :
  wf_model m → all_accepted h m (relevant (lines1 ++ lines2)) →
  fst (read_parfile h setup (lines1 ++ lines2) (m, log)) = Ret tt
  ∧ fst (read_parfile h setup lines1 (m, log)) = Ret tt
  ∧ fst (snd (read_parfile h setup lines2
                (fst (snd (read_parfile h setup lines1 (m, log))), log')))
    = fst (snd (read_parfile h setup (lines1 ++ lines2) (m, log))).
Proof.
  intros Hwf Hacc.
  assert (all_accepted h m (relevant lines1)) as Hacc1.
  { intros l par p Hl. apply Hacc. rewrite relevant_app, elem_of_app. by left. }
  assert (all_accepted h m (relevant lines2)) as Hacc2.
  { intros l par p Hl. apply Hacc. rewrite relevant_app, elem_of_app. by right. }
  rewrite (read_parfile_base h (lines1 ++ lines2)) by done.
  rewrite (read_parfile_base h lines1) by done. cbn [fst snd].
  rewrite read_parfile_base;
    [|by apply wf_after_lines|by apply all_accepted_after_lines].
  cbn [fst snd]. by rewrite relevant_app, after_lines_app.
Qed.
End read_parfile_composition.

(** ** Phases *)

Section phase_facts.
Context `{Numeric} `{DelayAlgebra} `{!PhaseAlgebra}.

Lemma accumulate_phase_foldl (pfs : list (TOA → delay_t → phase_t)) toa d acc :
  accumulate_phase pfs toa d acc
  = foldl phase_add acc ((λ pf, pf toa d) <$> pfs).
Proof.
  revert acc. induction pfs as [|pf pfs IH]; intros acc; [done|]. apply IH.
Qed.

(** X16: [phase] calls every phase function with the TOA and with the one
    delay that [delay] returns for that TOA, and adds up what they return,
    from [Phase(0,0.0)] and in registration order; without phase function
    it is [Phase(0,0.0)]. *)
Theorem phase_sum (m : TimingModel) toa :
  phase m toa
  = foldl phase_add phase_zero
      ((λ pf, pf toa (foldl add zero ((λ f, f toa) <$> delay_funcs m)))
         <$> phase_funcs m)
  ∧ (phase_funcs m = [] → phase m toa = phase_zero).
Proof.
  unfold phase, delay. rewrite accumulate_phase_foldl, accumulate_foldl.
  split; [done|]. by intros ->.
Qed.
End phase_facts.

(** ** A parfile written and read back *)

Lemma no_space_no_newline s : no_space s = true → no_newline s = true.
Proof.
  induction s as [|c s IH]; [done|]. simpl.
  intros [Hc Hs]%andb_true_iff. rewrite IH by done.
  destruct (Ascii.eqb_spec c "010") as [->|]; done.
Qed.

Lemma no_newline_app s1 s2 :
  no_newline (s1 +:+ s2) = no_newline s1 && no_newline s2.
Proof.
  induction s1 as [|c s1 IH]; [done|]. rewrite app_cons. simpl.
  by rewrite IH, andb_assoc.
Qed.

Lemma no_newline_spaces n : no_newline (spaces n) = true.
Proof. induction n; [done|]. simpl. done. Qed.

Lemma readlines_from_line t rest cur :
  no_newline t = true →
  readlines_from cur (t +:+ nl +:+ rest)
  = (cur +:+ t +:+ nl) :: readlines rest.
Proof.
  revert cur. induction t as [|c t IH]; intros cur Ht.
  - rewrite app_empty_l. unfold nl. rewrite app_cons, app_empty_l.
    simpl. by unfold snoc_char.
  - simpl in Ht. apply andb_true_iff in Ht as [Hc Ht].
    rewrite app_cons. simpl. apply negb_true_iff in Hc. rewrite Hc.
    rewrite IH by done. by rewrite snoc_char_app.
Qed.

(** Reading back the concatenation of lines, each empty or ended by its
    only newline, gives the lines that are not empty. *)
Lemma readlines_concat (ls : list string) :
  Forall (λ l, l = "" ∨ ∃ t, l = t +:+ nl ∧ no_newline t = true) ls →
  readlines (foldr String.append "" ls) = filter (λ l, l ≠ "") ls.
Proof.
  induction 1 as [|l ls [->|(t & -> & Ht)] _ IH]; [done|..];
    cbn [foldr].
  - rewrite app_empty_l, IH. by rewrite filter_cons_False by naive_solver.
  - rewrite filter_cons_True by (by destruct t).
    rewrite app_assoc'. unfold readlines at 1.
    rewrite readlines_from_line by done. by rewrite app_empty_l, IH.
Qed.

Lemma strip_keeps_head c r :
  is_space c = false → ∃ r', strip (String c r) = String c r'.
Proof.
  intros Hc. unfold strip. simpl. rewrite Hc. simpl.
  destruct (rstrip r); rewrite ?Hc; eauto.
Qed.

Lemma token_head t :
  is_token t = true →
  ∃ c t', t = String c t' ∧ is_space c = false.
Proof.
  destruct t as [|c t']; [done|]. simpl.
  intros [Hc _]%andb_true_iff. apply negb_true_iff in Hc. eauto.
Qed.

Section parfile_line_facts.
Context `{Numeric}.
Implicit Types (p q : Param) (h : heap).

Lemma parfile_line_split p :
  line_ok p →
  split (parfile_line p) =
    name p :: print_value p (value p) ::
      (if negb (is_none (uncertainty p))
       then [if frozen p then "0" else "1"; py_str (uncertainty p)]
       else if frozen p then [] else ["1"]).
Proof.
  intros (Hv & Hn & Hpv & Hu). apply split_parfile_line; try done.
  apply parfile_line_ret.
Qed.

Lemma parfile_line_one_line p :
  line_ok p →
  ∃ t, parfile_line p = t +:+ nl ∧ no_newline t = true.
Proof.
  intros (Hv & Hn & Hpv & Hu). unfold parfile_line.
  rewrite as_parfile_line_eq, Hv.
  eexists. rewrite <- !app_assoc'. split; [reflexivity|].
  apply is_token_inv in Hn as [_ Hn]. apply is_token_inv in Hpv as [_ Hpv].
  unfold ljust, rjust. rewrite !no_newline_app, !no_newline_spaces.
  rewrite (no_space_no_newline _ Hn), (no_space_no_newline _ Hpv).
  cbn [andb].
  destruct (is_none (uncertainty p)) eqn:Hnone; cbn [negb].
  - by destruct (frozen p).
  - destruct (is_token_inv _ (Hu eq_refl)) as [_ Hus].
    rewrite !no_newline_app, (no_space_no_newline _ Hus).
    by destruct (frozen p).
Qed.

Lemma parfile_line_head p :
  line_ok p →
  ∃ c r t', parfile_line p = String c r ∧ name p = String c t'
            ∧ is_space c = false.
Proof.
  intros (Hv & Hn & Hpv & Hu). unfold parfile_line.
  rewrite as_parfile_line_eq, Hv.
  destruct (token_head _ Hn) as (c & t' & Hname & Hc).
  rewrite Hname. unfold ljust. rewrite !app_cons. by eexists _, _, _.
Qed.

Lemma parfile_line_not_skipped p :
  line_ok p → startswith "#" (name p) = false →
  parfile_line p ≠ "" ∧ skipped (strip (parfile_line p)) = false.
Proof.
  intros Hok Hhash.
  destruct (parfile_line_head p Hok) as (c & r & t' & Hline & Hname & Hc).
  rewrite Hline. split; [done|].
  destruct (strip_keeps_head c r Hc) as [r' ->].
  unfold skipped. rewrite bool_decide_eq_false_2 by done. cbn [orb].
  rewrite Hname in Hhash. unfold startswith in *.
  cbn [String.prefix] in *.
  destruct (ascii_dec "#" c); [by destruct t'|done].
Qed.

(** Whether a parameter claims the line of another one is a matter of
    names, when no alias is involved. *)
Lemma claims_parfile_line h p q :
  line_ok p → upper (name p) = name p →
  name p ∉ aliases_of h q →
  claims h q (strip (parfile_line p)) = bool_decide (name p = name q).
Proof.
  intros Hok Hup Hal. unfold claims.
  rewrite split_strip, parfile_line_split by done.
  unfold name_matches. rewrite Hup.
  rewrite (bool_decide_eq_false_2 (name p ∈ _)) by done. apply orb_false_r.
Qed.

Lemma fresh_like_filled p :
  with_uncertainty (uncertainty p)
    (with_frozen (frozen p)
       (with_value (value p) (fresh_like p (Some (aliases p))))) = p.
Proof. by destruct p. Qed.

(** A new parameter of the same name reads the line of [p] and becomes
    [p]. *)
Lemma read_own_line h p :
  line_ok p → upper (name p) = name p → exact_line p →
  from_parfile_line h (strip (parfile_line p)) (fresh_like p (Some (aliases p)))
  = (Ret true, p).
Proof.
  intros Hok Hup (_ & Hparse & Hunc).
  rewrite from_parfile_line_fields, split_strip, parfile_line_split by done.
  unfold read_fields, name_matches. rewrite Hup.
  cbn [fresh_like Parameter_init name parse_value default from_option].
  rewrite bool_decide_eq_true_2 by done. cbn [orb]. unfold id.
  rewrite Hparse. unfold after_flag.
  destruct p as [v n un d u f c al pv pr].
  cbn [value name units description uncertainty frozen continuous aliases
       parse_value print_value] in *.
  destruct (is_none u) eqn:Hnone; cbn [negb].
  - assert (u = PyNone) as -> by (by destruct u).
    by destruct f.
  - destruct (Hunc eq_refl) as [_ Hfloat]. unfold fortran_float_parser in Hfloat.
    destruct (fortran_float (py_str u)) as [x|e] eqn:Hx; [|done].
    cbn [obind] in Hfloat. injection Hfloat as <-.
    by destruct f.
Qed.

Lemma accepts_own_line p q :
  line_ok p → exact_line p → parse_value q = parse_value p →
  accepts q (strip (parfile_line p)) = true.
Proof.
  intros Hok (_ & Hparse & Hunc) Hq. unfold accepts.
  rewrite split_strip, parfile_line_split by done. rewrite Hq, Hparse.
  cbn [is_ret andb].
  destruct (is_none (uncertainty p)) eqn:Hnone; cbn [negb].
  - by destruct (frozen p).
  - destruct (Hunc eq_refl) as [_ Hfloat]. unfold fortran_float_parser in Hfloat.
    destruct (fortran_float (py_str (uncertainty p))) as [x|e] eqn:Hx; [|done].
    by destruct (frozen p).
Qed.
End parfile_line_facts.

Lemma filter_all {A} (P : A → Prop) `{∀ x, Decision (P x)} (l : list A) :
  (∀ x, x ∈ l → P x) → filter P l = l.
Proof.
  induction l as [|x l IH]; intros Hl; [done|].
  rewrite filter_cons_True by (apply Hl; by left).
  f_equal. apply IH. intros. apply Hl. by right.
Qed.

Lemma filter_none {A} (P : A → Prop) `{∀ x, Decision (P x)} (l : list A) :
  (∀ x, x ∈ l → ¬ P x) → filter P l = [].
Proof.
  induction l as [|x l IH]; intros Hl; [done|].
  rewrite filter_cons_False by (apply Hl; by left).
  apply IH. intros. apply Hl. by right.
Qed.

Lemma append_cons_nonempty s c r : s +:+ String c r ≠ "".
Proof. by destruct s. Qed.

Section parfile_round_trip_facts.
Context `{Numeric} `{DelayAlgebra}.
Variables (h : heap) (m : TimingModel).
Hypothesis Hwf : wf_model m.
Hypothesis Hpars :
  ∀ par p, par ∈ params m → attrs m !! par = Some p →
    name p = par ∧ parfile_name par
    ∧ (is_none (value p) = false → exact_line p).
Hypothesis Halias :
  ∀ par par' p', par ∈ params m → par' ∈ params m →
    attrs m !! par' = Some p' → par ∉ aliases_of h p'.

Lemma registered_bound par : par ∈ params m → is_Some (attrs m !! par).
Proof. destruct Hwf as (_ & Hin & _). apply Hin. Qed.

Lemma registered_line_ok par p :
  par ∈ params m → attrs m !! par = Some p → is_none (value p) = false →
  name p = par ∧ line_ok p ∧ upper (name p) = name p
  ∧ startswith "#" (name p) = false ∧ exact_line p.
Proof.
  intros Hpar Hp Hv.
  destruct (Hpars par p Hpar Hp) as (Hname & (Htok & Hup & Hhash) & Hexact).
  destruct (Hexact Hv) as (Hpv & Hparse & Hunc).
  rewrite Hname. split_and!; try done.
  split_and!; [done|by rewrite Hname|done|]. intros Hu. by apply Hunc.
Qed.

Lemma parfile_line_nonempty (p : Param) :
  is_none (value p) = false → parfile_line p ≠ "".
Proof.
  intros Hv. unfold parfile_line. rewrite as_parfile_line_eq, Hv.
  change (" " +:+ ?x) with (String " " x). apply append_cons_nonempty.
Qed.

Lemma parfile_lines_of_cons par ps :
  parfile_lines_of m (par :: ps) =
    match attrs m !! par with
    | Some p =>
        if is_none (value p) then parfile_lines_of m ps
        else parfile_line p :: parfile_lines_of m ps
    | None => parfile_lines_of m ps
    end.
Proof.
  unfold parfile_lines_of. cbn [fmap list_fmap].
  destruct (attrs m !! par) as [p|]; cbn [from_option].
  - destruct (is_none (value p)) eqn:Hv.
    + rewrite parfile_line_unset by done.
      by rewrite filter_cons_False by (intros Hne; by apply Hne).
    + by rewrite filter_cons_True by (by apply parfile_line_nonempty).
  - by rewrite filter_cons_False by (intros Hne; by apply Hne).
Qed.

Lemma line_origin L ps :
  L ∈ parfile_lines_of m ps →
  ∃ par p, par ∈ ps ∧ attrs m !! par = Some p
           ∧ is_none (value p) = false ∧ L = parfile_line p.
Proof.
  induction ps as [|par ps IH].
  - by intros ?%elem_of_nil.
  - rewrite parfile_lines_of_cons.
    destruct (attrs m !! par) as [p|] eqn:Hp.
    + destruct (is_none (value p)) eqn:Hv.
      * intros (par' & p' & ? & ?)%IH. exists par', p'. split; [by right|done].
      * intros [->|(par' & p' & ? & ?)%IH]%elem_of_cons.
        -- exists par, p. split; [by left|done].
        -- exists par', p'. split; [by right|done].
    + intros (par' & p' & ? & ?)%IH. exists par', p'. split; [by right|done].
Qed.

(** A parameter named [par'] does not claim the line of a parameter
    registered under another name. *)
Lemma claims_registered_line par p par' p' q :
  par ∈ params m → attrs m !! par = Some p → is_none (value p) = false →
  par' ∈ params m → attrs m !! par' = Some p' →
  name q = par' → aliases q = aliases p' →
  claims h q (strip (parfile_line p)) = bool_decide (par = par').
Proof.
  intros Hpar Hp Hv Hpar' Hp' Hq Hal.
  destruct (registered_line_ok par p) as (Hname & Hok & Hup & _); [done..|].
  rewrite claims_parfile_line by
    (try done; rewrite Hname; unfold aliases_of; rewrite Hal;
     by apply (Halias par par' p')).
  by rewrite Hname, Hq.
Qed.

Lemma offer_other_lines ps par' p' q :
  (∀ par, par ∈ ps → par ∈ params m) →
  par' ∈ params m → attrs m !! par' = Some p' →
  name q = par' → aliases q = aliases p' → par' ∉ ps →
  offer_lines h (strip <$> parfile_lines_of m ps) q = q.
Proof.
  intros Hps Hpar' Hp' Hq Hal Hnotin.
  induction ps as [|par ps IH]; [done|].
  apply not_elem_of_cons in Hnotin as [Hne Hnotin].
  rewrite parfile_lines_of_cons.
  assert (offer_lines h (strip <$> parfile_lines_of m ps) q = q) as IH'.
  { apply IH; [|done]. intros. apply Hps. by right. }
  destruct (registered_bound par) as [p Hp]; [apply Hps; by left|].
  rewrite Hp. destruct (is_none (value p)) eqn:Hv; [done|].
  cbn [fmap list_fmap]. unfold offer_lines in *. cbn [foldl].
  rewrite from_parfile_line_false_unchanged; [done|].
  apply from_parfile_line_false_iff.
  rewrite (claims_registered_line par p par' p') by (done || apply Hps; by left).
  by rewrite bool_decide_eq_false_2 by congruence.
Qed.

Lemma offer_own_lines ps par' p' :
  NoDup ps → (∀ par, par ∈ ps → par ∈ params m) →
  par' ∈ ps → attrs m !! par' = Some p' →
  offer_lines h (strip <$> parfile_lines_of m ps)
    (fresh_like p' (Some (aliases p')))
  = if is_none (value p') then fresh_like p' (Some (aliases p')) else p'.
Proof.
  intros Hnd Hps Hin Hp'.
  assert (name p' = par') as Hname'.
  { by destruct (Hpars par' p' (Hps _ Hin) Hp') as (? & _). }
  induction ps as [|par ps IH]; [by apply elem_of_nil in Hin|].
  apply NoDup_cons in Hnd as [Hnotin Hnd].
  rewrite parfile_lines_of_cons.
  destruct (decide (par = par')) as [->|Hne].
  - rewrite Hp'. destruct (is_none (value p')) eqn:Hv.
    + apply (offer_other_lines ps par' p'); try done.
      * intros. apply Hps. by right.
      * apply Hps. by left.
    + cbn [fmap list_fmap]. unfold offer_lines. cbn [foldl].
      destruct (registered_line_ok par' p') as (_ & Hok & Hup & _ & Hex);
        [apply Hps; by left|done..|].
      rewrite read_own_line by done. cbn [snd].
      apply (offer_other_lines ps par' p'); try done.
      * intros. apply Hps. by right.
      * apply Hps. by left.
  - apply elem_of_cons in Hin as [?|Hin]; [congruence|].
    assert (offer_lines h (strip <$> parfile_lines_of m ps)
              (fresh_like p' (Some (aliases p')))
            = if is_none (value p') then fresh_like p' (Some (aliases p'))
              else p') as IH'.
    { apply IH; try done. intros. apply Hps. by right. }
    destruct (registered_bound par) as [p Hp]; [apply Hps; by left|].
    rewrite Hp. destruct (is_none (value p)) eqn:Hv; [done|].
    cbn [fmap list_fmap]. unfold offer_lines in *. cbn [foldl].
    rewrite from_parfile_line_false_unchanged; [done|].
    apply from_parfile_line_false_iff.
    rewrite (claims_registered_line par p par' p');
      [by rewrite bool_decide_eq_false_2 by congruence|..]; try done.
    + apply Hps. by left.
    + apply Hps. by right.
Qed.
End parfile_round_trip_facts.

Section parfile_round_trip_main.
Context `{Numeric} `{DelayAlgebra}.
Implicit Types (m : TimingModel) (p : Param) (h : heap).

Lemma blank_values_lookup m par :
  attrs (blank_values m) !! par
  = (λ p, fresh_like p (Some (aliases p))) <$> attrs m !! par.
Proof. unfold blank_values. cbn [attrs set_attrs]. apply lookup_fmap. Qed.

Lemma wf_blank_values m : wf_model m → wf_model (blank_values m).
Proof.
  intros (Hnd & Hin & Hbuiltin). split_and!; [done|..].
  - intros par Hpar. rewrite blank_values_lookup. apply fmap_is_Some.
    by apply Hin.
  - intros n Hn. destruct (Hbuiltin n Hn) as [Hnone Hnotin]. split; [|done].
    by rewrite blank_values_lookup, Hnone.
Qed.

(** X18: a model is read back from its own parfile.  When the registered
    parameters are bound under their own names, the names are upper-case
    fields that do not start with [#] and are nobody's alias, and the set
    values and uncertainties print as one field each that the parsers read
    back exactly, then [read_parfile] on the lines of [as_parfile], in a
    copy of the model with all values unset, raises nothing, warns about
    nothing, and gives back every parameter with a set value as it was:
    value, uncertainty and frozen flag; a parameter without value stays
    unset and frozen. *)
Theorem parfile_round_trip h m s :
  wf_model m →
  (∀ par p, par ∈ params m → attrs m !! par = Some p →
     name p = par ∧ parfile_name par
     ∧ (is_none (value p) = false → exact_line p)) →
  (∀ par par' p', par ∈ params m → par' ∈ params m →
     attrs m !! par' = Some p' → par ∉ aliases_of h p') →
  as_parfile m = Ret s →
  ∃ m',
    read_parfile h setup (readlines s) (blank_values m, [])
    = (Ret tt, (m', [SetupCall]))
    ∧ ∀ par p, par ∈ params m → attrs m !! par = Some p →
        attrs m' !! par
        = Some (if is_none (value p) then fresh_like p (Some (aliases p))
                else p).
Proof.
  intros Hwf Hpars Halias Hs.
  pose proof Hwf as (Hnd & Hin & _).
  (* the lines of the file *)
  assert (relevant (readlines s)
          = strip <$> parfile_lines_of m (params m)) as Hrel.
  { unfold as_parfile in Hs. rewrite as_parfile_from_spec in Hs by done.
    injection Hs as <-. rewrite app_empty_l, readlines_concat.
    - unfold relevant. apply filter_all.
      intros l (L & -> & HL)%list_elem_of_fmap.
      apply (line_origin m) in HL as (par & p & Hpar & Hp & Hv & ->).
      destruct (registered_line_ok m Hpars par p) as (_ & Hok & _ & Hhash & _);
        [done..|].
      by apply parfile_line_not_skipped.
    - apply Forall_forall. intros L (par & -> & Hpar)%list_elem_of_fmap.
      destruct (Hin par Hpar) as [p Hp]. rewrite Hp. cbn [from_option].
      destruct (is_none (value p)) eqn:Hv.
      + left. by apply parfile_line_unset.
      + right. apply parfile_line_one_line.
        by destruct (registered_line_ok m Hpars par p) as (_ & ? & _). }
  (* every line is claimed by its own parameter only, and accepted *)
  assert (∀ l, l ∈ strip <$> parfile_lines_of m (params m) →
            ∃ par p, par ∈ params m ∧ attrs m !! par = Some p
                     ∧ is_none (value p) = false
                     ∧ l = strip (parfile_line p)) as Horigin.
  { intros l (L & -> & HL)%list_elem_of_fmap.
    apply (line_origin m) in HL as (par & p & ? & ? & ? & ->). eauto 10. }
  assert (all_accepted h (blank_values m)
            (strip <$> parfile_lines_of m (params m))) as Hacc.
  { intros l par' q Hl Hpar' Hq Hclaims.
    rewrite blank_values_lookup in Hq.
    destruct (attrs m !! par') as [p'|] eqn:Hp'; [|done].
    injection Hq as <-.
    destruct (Horigin l Hl) as (par & p & Hpar & Hp & Hv & ->).
    rewrite (claims_registered_line h m Hpars Halias par p par' p')
      in Hclaims; try done.
    2:{ by destruct (Hpars par' p' Hpar' Hp') as (? & _). }
    apply bool_decide_eq_true in Hclaims as <-.
    assert (p' = p) as -> by congruence.
    destruct (registered_line_ok m Hpars par p) as (_ & Hok & _ & _ & Hex);
      [done..|].
    by apply accepts_own_line. }
  exists (after_lines h (strip <$> parfile_lines_of m (params m))
            (blank_values m)).
  split.
  - rewrite read_parfile_base; rewrite ?Hrel;
      [|by apply wf_blank_values|done].
    rewrite filter_none; [done|].
    intros l Hl. destruct (Horigin l Hl) as (par & p & Hpar & Hp & Hv & ->).
    rewrite not_true_iff_false. unfold unclaimed.
    rewrite negb_false_iff. apply existsb_exists. exists par.
    split; [by apply list_elem_of_In|].
    unfold claimed_by. rewrite blank_values_lookup, Hp. cbn.
    rewrite (claims_registered_line h m Hpars Halias par p par p);
      try done.
    + by apply bool_decide_eq_true_2.
    + by destruct (Hpars par p Hpar Hp) as (? & _).
  - intros par p Hpar Hp. rewrite after_lines_lookup, blank_values_lookup, Hp.
    cbn [fmap option_fmap option_map]. f_equal.
    rewrite bool_decide_eq_true_2 by done.
    by apply (offer_own_lines h m Hwf Hpars Halias (params m) par p).
Qed.
End parfile_round_trip_main.

(** ** Reading a line twice *)

Section idempotence.
Context `{Numeric}.

(** X19: reading a line a second time changes nothing more and ends the
    same way: in the same return value or the same error, with the
    parameter as the first reading left it. *)
Theorem from_parfile_line_idempotent (h : heap) line (p : Param) :
  from_parfile_line h line (snd (from_parfile_line h line p))
  = from_parfile_line h line p.
Proof.
  rewrite !from_parfile_line_fields. unfold read_fields, name_matches, after_flag.
  destruct (split line) as [|k0 [|k1 rest]]; [done..|].
  destruct (bool_decide (upper k0 = name p)
            || bool_decide (upper k0 ∈ aliases_of h p)) eqn:Hm;
    cbn [snd]; [|by rewrite Hm].
  destruct (parse_value p k1) as [v|e] eqn:Hv; cbn [snd]; [|by rewrite Hm, Hv].
  destruct rest as [|k2 rest]; cbn [snd].
  { unfold aliases_of in *. cbn [name aliases parse_value with_value].
    by rewrite Hm, Hv. }
  destruct (py_int k2) as [flag|e]; cbn [snd].
  2:{ unfold aliases_of in *. cbn [name aliases parse_value with_value].
      by rewrite Hm, Hv. }
  destruct rest as [|k3 [|k4 rest]]; cbn [snd];
    try destruct (fortran_float k3) as [x|e]; cbn [snd];
    destruct (0 <? flag); unfold aliases_of in *;
    cbn [name aliases parse_value with_value with_frozen with_uncertainty];
    by rewrite Hm, Hv.
Qed.
End idempotence.

(** * The further properties at concrete inputs *)

(** Case analysis on a membership in a list that is written out. *)
Ltac in_cases H :=
  vm_compute in H;
  repeat (apply elem_of_cons in H as [->|H]);
  [..|by apply elem_of_nil in H].

(** The parameter bound to a name in a concrete model. *)
Ltac bound_to Hp q :=
  match type of Hp with
  | ?L = Some ?p =>
      let Hq := fresh "Hq" in
      assert (L = Some q) as Hq by reflexivity;
      rewrite Hq in Hp; injection Hp as <-
  end.

(** A concrete parameter either accepts a concrete line or does not claim
    it. *)
Ltac accepted_or_unclaimed Hclaims :=
  first [vm_compute; reflexivity | vm_compute in Hclaims; discriminate].

Section more_example_facts.
#[local] Existing Instance decimal_numeric.
#[local] Existing Instance Z_delays.
#[local] Existing Instance Z_phases.

Example model_fitted_content :
  params model_fitted = ["PSR"; "F0"; "F1"]
  ∧ attrs model_fitted !! "PSR" = Some psr_set
  ∧ attrs model_fitted !! "F0" = Some F0_fitted
  ∧ attrs model_fitted !! "F1" = Some F1
  ∧ as_parfile model_fitted
    = Ret ("PSR                            J1234+1234" +:+ nl
           +:+ "F0                                1000e-1 1 1e-4" +:+ nl).
Proof. repeat split; reflexivity. Qed.

Lemma reachable_model_fitted : reachable model_fitted.
Proof. do 2 apply reachable_add_param. apply reachable_read, reachable_model0. Qed.

Lemma reachable_model_F0 : reachable model_F0.
Proof. apply reachable_add_param, reachable_model0. Qed.


(** A line of blanks is not claimed. *)
Lemma from_parfile_line_strip_witness :
  from_parfile_line heap0 "   " psr = (Ret false, psr).
Proof.
  apply (proj2 (from_parfile_line_strip heap0 "   " psr)). reflexivity.
Defined.

(** [psr] for [PSR]. *)
Lemma from_parfile_line_case_insensitive_witness :
  from_parfile_line heap0 "psr J1234+1234" psr
  = from_parfile_line heap0 "PSR J1234+1234" psr.
Proof.
  apply (from_parfile_line_case_insensitive heap0 "PSR J1234+1234"
           "psr J1234+1234" "PSR" "psr" ["J1234+1234"] psr); reflexivity.
Defined.

(** The alias [f0] is never matched. *)
Lemma add_alias_claims_witness :
  claims (add_alias F0 "f0" initial_heap) F0 "f0 1.0"
  = claims initial_heap F0 "f0 1.0".
Proof.
  apply (proj2 (add_alias_claims initial_heap F0 "f0" "f0 1.0")). discriminate.
Defined.

(** An alias added to [F0] is nothing to [PSR]. *)
Lemma add_alias_other_list_witness :
  aliases_of (add_alias F0 "PSRJ2" heap0) psr = aliases_of heap0 psr
  ∧ from_parfile_line (add_alias F0 "PSRJ2" heap0) "PSRJ2 J1" psr
    = from_parfile_line heap0 "PSRJ2 J1" psr.
Proof. apply (add_alias_other_list heap0 F0 psr "PSRJ2" "PSRJ2 J1"). discriminate. Defined.

(** [F0] cannot be registered twice. *)
Lemma add_param_again_witness :
  add_param F0_fitted (snd (add_param F0 model0))
  = (Raise (DuplicateParameter "F0"), snd (add_param F0 model0)).
Proof. apply (add_param_again model0 F0 F0_fitted). reflexivity. Defined.

Lemma reachable_registry_witness : registry_ok model_fitted.
Proof. apply reachable_registry, reachable_model_fitted. Defined.

Lemma reachable_derivative_entries_witness :
  (is_Some (delay_derivs model_fitted !! "EPHEM")
     ↔ is_Some (phase_derivs model_fitted !! "EPHEM"))
  ∧ (is_Some (delay_derivs model_fitted !! "EPHEM")
     ↔ ∃ p, attrs model_fitted !! "EPHEM" = Some p ∧ continuous p = true)
  ∧ (d_delay_d_param model_fitted 0 "EPHEM" = Raise (KeyError "EPHEM")
     ↔ ¬ ∃ p, attrs model_fitted !! "EPHEM" = Some p ∧ continuous p = true).
Proof.
  apply (reachable_derivative_entries model_fitted 0 "EPHEM"),
    reachable_model_fitted.
Defined.

Lemma as_parfile_spec_witness :
  as_parfile model_fitted
  = Ret (foldr String.append "" (parfile_lines model_fitted))
  ∧ ((∀ par p, attrs model_fitted !! par = Some p →
        is_none (value p) = true) →
     as_parfile model_fitted = Ret "").
Proof. apply as_parfile_spec, reachable_wf, reachable_model_fitted. Defined.

Lemma as_parfile_add_param_witness :
  as_parfile (snd (add_param F0_fitted model0))
  = Ret (foldr String.append "" (parfile_lines model0)
         +:+ parfile_line F0_fitted).
Proof.
  apply (as_parfile_add_param model0 F0_fitted).
  - apply reachable_wf, reachable_model0.
  - reflexivity.
Defined.

Lemma phase_sum_witness : phase model0 5 = 0.
Proof. exact (proj2 (phase_sum model0 5) eq_refl). Defined.

(** [F0] claims no line of the parfile and is left as it was. *)
Lemma read_parfile_untouched_witness :
  attrs (fst (snd (read_parfile heap0 setup parfile_with_foreign_line
                     (model_F0, [])))) !! "F0"
  = Some F0.
Proof.
  apply (read_parfile_untouched heap0 parfile_with_foreign_line model_F0 []
           "F0" F0).
  - apply reachable_wf, reachable_model_F0.
  - intros l par p Hl Hpar Hp Hclaims.
    in_cases Hpar; [bound_to Hp psr|bound_to Hp F0];
      in_cases Hl; accepted_or_unclaimed Hclaims.
  - reflexivity.
  - intros l Hl. in_cases Hl; vm_compute; reflexivity.
Defined.


(** A parfile read in two parts. *)
Lemma read_parfile_app_witness :
  fst (read_parfile heap0 setup
         (["PSR J1" +:+ nl] ++ ["EPHEM DE421" +:+ nl; "PSRJ J2  1" +:+ nl])
         (model0, [])) = Ret tt
  ∧ fst (read_parfile heap0 setup ["PSR J1" +:+ nl] (model0, [])) = Ret tt
  ∧ fst (snd (read_parfile heap0 setup
                ["EPHEM DE421" +:+ nl; "PSRJ J2  1" +:+ nl]
                (fst (snd (read_parfile heap0 setup ["PSR J1" +:+ nl]
                             (model0, []))), [])))
    = fst (snd (read_parfile heap0 setup
                  (["PSR J1" +:+ nl]
                   ++ ["EPHEM DE421" +:+ nl; "PSRJ J2  1" +:+ nl])
                  (model0, []))).
Proof.
  apply (read_parfile_app heap0 ["PSR J1" +:+ nl]
           ["EPHEM DE421" +:+ nl; "PSRJ J2  1" +:+ nl] model0 [] []).
  - apply reachable_wf, reachable_model0.
  - intros l par p Hl Hpar Hp Hclaims.
    in_cases Hpar; bound_to Hp psr; in_cases Hl;
      accepted_or_unclaimed Hclaims.
Defined.

(** The model with [PSR] set, [F0] fitted and [F1] unset is read back from
    its parfile. *)
Lemma parfile_round_trip_witness :
  ∃ m',
    read_parfile heap0 setup
      (readlines (parfile_line psr_set +:+ parfile_line F0_fitted))
      (blank_values model_fitted, [])
    = (Ret tt, (m', [SetupCall]))
    ∧ ∀ par p, par ∈ params model_fitted →
        attrs model_fitted !! par = Some p →
        attrs m' !! par
        = Some (if is_none (value p) then fresh_like p (Some (aliases p))
                else p).
Proof.
  apply (parfile_round_trip heap0 model_fitted).
  - apply reachable_wf, reachable_model_fitted.
  - intros par p Hpar Hp.
    in_cases Hpar;
      [bound_to Hp psr_set|bound_to Hp F0_fitted|bound_to Hp F1];
      (split; [reflexivity|]); (split; [repeat split; reflexivity|]);
      intros Hv;
      first [ by vm_compute in Hv
            | split; [reflexivity|]; split; [reflexivity|]; intros Hu;
              first [by vm_compute in Hu | split; reflexivity] ].
  - intros par par' p' Hpar Hpar' Hp'.
    in_cases Hpar';
      [bound_to Hp' psr_set|bound_to Hp' F0_fitted|bound_to Hp' F1];
      in_cases Hpar; intros Hin; vm_compute in Hin;
      repeat (apply elem_of_cons in Hin as [Heq|Hin]; [discriminate Heq|]);
      by apply elem_of_nil in Hin.
  - reflexivity.
Defined.
End more_example_facts.
